(** * Session store, route guard and error boundary of the React
      enterprise boilerplate

    The development embeds
    - the auth slice [useAuthStore]: the state and the three actions of
      [authSlice.ts], under zustand's [create] and its [persist]
      middleware with the options of the slice (JSON storage over
      [localStorage], default [merge] and [version]);
    - the route table of [AppRouter] with its two guard components
      [ProtectedRoute] and [PublicRoute], under the route matching of
      react-router ([flattenRoutes], [rankRouteBranches], [matchPath]) and
      the rendering of [React.lazy] pages;
    - the class component [ErrorBoundary];
    and states the properties of the specification over them.

    JavaScript objects are finite maps from property names to values
    ([gmap string jsval]); strings are byte strings (UTF-8). *)

From Stdlib Require Import ssreflect ZArith Ascii String List Lia.
From stdpp Require Import gmap strings list fin_maps pretty.

#[local] Set Warnings "-register-all,-rewrite-rw,-clear-no-such-hyp".
#[local] Open Scope string_scope.

(* ===================================================================== *)
(** * JavaScript values *)
(* ===================================================================== *)

Module JS.

(** A number [JNum m e] is the exact decimal [m * 10^e]; the code under
    study only ever compares a number with zero. *)
Inductive jsval :=
| JUndefined
| JNull
| JBool (b : bool)
| JNum (m e : Z)
| JStr (s : string)
| JArr (l : list jsval)
| JObj (o : gmap string jsval).

Abbreviation object := (gmap string jsval).

(** [ToBoolean]: what [if (v)] and [!v] test. *)
Definition truthy (v : jsval) : bool :=
  match v with
  | JUndefined | JNull => false
  | JBool b => b
  | JNum m _ => negb (m =? 0)%Z
  | JStr s => negb (String.eqb s "")
  | JArr _ | JObj _ => true
  end.

(** A value is present when it is neither [null] nor [undefined]. *)
Definition present (v : jsval) : bool :=
  match v with
  | JUndefined | JNull => false
  | _ => true
  end.

(** Property read [o.k] on an object: a missing property reads as
    [undefined]. *)
Definition get (o : object) (k : string) : jsval :=
  default JUndefined (o !! k).

(** Property read [v.k] on any value, for a name [k] that is no built-in
    property of strings or arrays (such as [length]). *)
Definition prop (v : jsval) (k : string) : jsval :=
  match v with
  | JObj o => get o k
  | _ => JUndefined
  end.

Fixpoint indexed {A} (f : A → jsval) (i : nat) (l : list A) : object :=
  match l with
  | [] => ∅
  | x :: l' => <[pretty i := f x]> (indexed f (S i) l')
  end.

(** Own enumerable properties, as copied by the spread [{...v}]:
    primitives other than strings have none, a string spreads into its
    characters and an array into its elements, keyed by index. *)
Definition spread (v : jsval) : object :=
  match v with
  | JObj o => o
  | JStr s => indexed (fun c => JStr (String c "")) 0 (list_ascii_of_string s)
  | JArr l => indexed id 0 l
  | _ => ∅
  end.

(** [{...a, ...b}]: the properties of [b] override those of [a]. *)
Definition spread2 (a b : object) : object := b ∪ a.

(** [typeof v === "number"]. *)
Definition is_number (v : jsval) : bool :=
  match v with JNum _ _ => true | _ => false end.

End JS.

(* ===================================================================== *)
(** * JSON text: [JSON.stringify] and [JSON.parse] *)
(* ===================================================================== *)

Module JSON.
Import JS.

#[local] Open Scope char_scope.
#[local] Open Scope list_scope.

Definition chars := list ascii.

(** ** Serialisation *)

Definition hex_digit (n : N) : ascii :=
  match n with
  | 0 => "0" | 1 => "1" | 2 => "2" | 3 => "3" | 4 => "4" | 5 => "5"
  | 6 => "6" | 7 => "7" | 8 => "8" | 9 => "9" | 10 => "a" | 11 => "b"
  | 12 => "c" | 13 => "d" | 14 => "e" | _ => "f"
  end%N.

(** One character of a string literal: quote, backslash and the control
    characters are escaped, everything else is copied. *)
Definition quote_char (c : ascii) : chars :=
  let n := N_of_ascii c in
  if (n =? 34)%N then ["\"; "034"]
  else if (n =? 92)%N then ["\"; "\"]
  else if (n =? 8)%N then ["\"; "b"]
  else if (n =? 12)%N then ["\"; "f"]
  else if (n =? 10)%N then ["\"; "n"]
  else if (n =? 13)%N then ["\"; "r"]
  else if (n =? 9)%N then ["\"; "t"]
  else if (n <? 32)%N then
    ["\"; "u"; "0"; "0"; hex_digit (n / 16); hex_digit (n mod 16)]
  else [c].

Definition quote (s : string) : chars :=
  "034" :: flat_map quote_char (list_ascii_of_string s) ++ ["034"].

Definition number_text (m e : Z) : chars :=
  list_ascii_of_string (pretty m) ++
  (if (e =? 0)%Z then [] else "e" :: list_ascii_of_string (pretty e)).

Fixpoint join (sep : chars) (l : list chars) : chars :=
  match l with
  | [] => []
  | [x] => x
  | x :: l' => x ++ sep ++ join sep l'
  end.

(** [None] stands for the [undefined] that [JSON.stringify] yields on
    [undefined]: such a property is left out of an object, and written
    as [null] inside an array. The properties of an object are written in
    the order of the map, which need not be the order in which JavaScript
    inserted them; [JSON.parse] reads both texts as the same object. *)
Fixpoint serialize (v : jsval) : option chars :=
  match v with
  | JUndefined => None
  | JNull => Some (list_ascii_of_string "null")
  | JBool true => Some (list_ascii_of_string "true")
  | JBool false => Some (list_ascii_of_string "false")
  | JNum m e => Some (number_text m e)
  | JStr s => Some (quote s)
  | JArr l =>
      Some ("[" :: join [","]
              (map (fun x => default (list_ascii_of_string "null") (serialize x)) l)
            ++ ["]"])
  | JObj o =>
      Some ("{" :: join [","]
              (map_fold (fun k x acc =>
                           match serialize x with
                           | Some t => (quote k ++ ":" :: t) :: acc
                           | None => acc
                           end) [] o)
            ++ ["}"])
  end.

(** [JSON.stringify(v)] for a value that is not [undefined] at top
    level. *)
Definition stringify (v : jsval) : string :=
  string_of_list_ascii (default [] (serialize v)).

(** ** Parsing *)

Definition is_ws (c : ascii) : bool :=
  let n := N_of_ascii c in
  ((n =? 32) || (n =? 9) || (n =? 10) || (n =? 13))%N.

Fixpoint skip_ws (s : chars) : chars :=
  match s with
  | c :: s' => if is_ws c then skip_ws s' else s
  | [] => []
  end.

Definition digit_val (c : ascii) : option Z :=
  let n := N_of_ascii c in
  if ((48 <=? n) && (n <=? 57))%N then Some (Z.of_N n - 48)%Z else None.

Definition hex_val (c : ascii) : option N :=
  let n := N_of_ascii c in
  if ((48 <=? n) && (n <=? 57))%N then Some (n - 48)%N
  else if ((97 <=? n) && (n <=? 102))%N then Some (n - 87)%N
  else if ((65 <=? n) && (n <=? 70))%N then Some (n - 55)%N
  else None.

(** UTF-8 bytes of a code point of the basic plane. *)
Definition utf8 (cp : N) : chars :=
  if (cp <? 128)%N then [ascii_of_N cp]
  else if (cp <? 2048)%N then
    [ascii_of_N (192 + cp / 64); ascii_of_N (128 + cp mod 64)]
  else
    [ascii_of_N (224 + cp / 4096); ascii_of_N (128 + (cp / 64) mod 64);
     ascii_of_N (128 + cp mod 64)].

(** The body of a string literal, after the opening quote. *)
Fixpoint parse_string (s : chars) (acc : chars) : option (string * chars) :=
  match s with
  | [] => None
  | c :: s' =>
      let n := N_of_ascii c in
      if (n =? 34)%N then Some (string_of_list_ascii (rev acc), s')
      else if (n <? 32)%N then None
      else if (n =? 92)%N then
        match s' with
        | e :: s'' =>
            let simple (x : N) := parse_string s'' (ascii_of_N x :: acc) in
            match e with
            | "034" => simple 34%N
            | "\" => simple 92%N
            | "/" => simple 47%N
            | "b" => simple 8%N
            | "f" => simple 12%N
            | "n" => simple 10%N
            | "r" => simple 13%N
            | "t" => simple 9%N
            | "u" =>
                match s'' with
                | h1 :: h2 :: h3 :: h4 :: s3 =>
                    match hex_val h1, hex_val h2, hex_val h3, hex_val h4 with
                    | Some a, Some b, Some c', Some d =>
                        parse_string s3
                          (rev (utf8 (((a * 16 + b) * 16 + c') * 16 + d)%N) ++ acc)
                    | _, _, _, _ => None
                    end
                | _ => None
                end
            | _ => None
            end
        | [] => None
        end
      else parse_string s' (c :: acc)
  end.

(** A possibly empty run of digits: accumulated value, number of digits,
    rest. *)
Fixpoint parse_digits (s : chars) (acc : Z) (n : Z) : Z * Z * chars :=
  match s with
  | c :: s' =>
      match digit_val c with
      | Some d => parse_digits s' (acc * 10 + d)%Z (n + 1)%Z
      | None => (acc, n, s)
      end
  | [] => (acc, n, [])
  end.

(** A number literal: optional minus sign, integer part without a
    leading zero, optional fraction, optional exponent. *)
Definition parse_number (s : chars) : option (jsval * chars) :=
  let '(neg, s1) := match s with "-" :: r => (true, r) | _ => (false, s) end in
  let int_part :=
    match s1 with
    | "0" :: r => Some (0%Z, r)
    | _ => let '(v, n, r) := parse_digits s1 0 0 in
           if (n =? 0)%Z then None else Some (v, r)
    end in
  match int_part with
  | None => None
  | Some (i, s2) =>
      let frac :=
        match s2 with
        | "." :: r => let '(v, n, r') := parse_digits r i 0 in
                      if (n =? 0)%Z then None else Some (v, (- n)%Z, r')
        | _ => Some (i, 0%Z, s2)
        end in
      match frac with
      | None => None
      | Some (m, fe, s3) =>
          let m' := if neg then (- m)%Z else m in
          let exponent (r : chars) :=
            let '(eneg, r1) :=
              match r with
              | "-" :: r' => (true, r')
              | "+" :: r' => (false, r')
              | _ => (false, r)
              end in
            let '(v, n, r2) := parse_digits r1 0 0 in
            if (n =? 0)%Z then None
            else Some (JNum m' (fe + (if eneg then - v else v))%Z, r2) in
          match s3 with
          | "e" :: r => exponent r
          | "E" :: r => exponent r
          | _ => Some (JNum m' fe, s3)
          end
      end
  end.

Definition expect (lit : string) (v : jsval) (s : chars) : option (jsval * chars) :=
  let l := list_ascii_of_string lit in
  if bool_decide (take (length l) s = l) then Some (v, drop (length l) s) else None.

Section Composite.
(** The parser of one value, which the loops over the elements of an
    array and the members of an object call. *)
Variable value : chars → option (jsval * chars).

(** After [[] and a first non-bracket character. *)
Fixpoint parse_elements (n : nat) (s : chars) (acc : list jsval)
  : option (jsval * chars) :=
  match n with
  | O => None
  | S n' =>
      match value s with
      | None => None
      | Some (v, r) =>
          match skip_ws r with
          | "," :: r' => parse_elements n' r' (v :: acc)
          | "]" :: r' => Some (JArr (rev (v :: acc)), r')
          | _ => None
          end
      end
  end.

(** After [{] and a first non-brace character; a repeated name keeps
    its last value. *)
Fixpoint parse_members (n : nat) (s : chars) (acc : object)
  : option (jsval * chars) :=
  match n with
  | O => None
  | S n' =>
      match skip_ws s with
      | "034" :: r =>
          match parse_string r [] with
          | None => None
          | Some (k, r1) =>
              match skip_ws r1 with
              | ":" :: r2 =>
                  match value r2 with
                  | None => None
                  | Some (v, r3) =>
                      match skip_ws r3 with
                      | "," :: r4 => parse_members n' r4 (<[k := v]> acc)
                      | "}" :: r4 => Some (JObj (<[k := v]> acc), r4)
                      | _ => None
                      end
                  end
              | _ => None
              end
          end
      | _ => None
      end
  end.
End Composite.

(** One value with leading white space; [depth] bounds the nesting. *)
Fixpoint parse_value (depth : nat) (s : chars) : option (jsval * chars) :=
  match depth with
  | O => None
  | S d =>
      match skip_ws s with
      | "{" :: r =>
          match skip_ws r with
          | "}" :: r' => Some (JObj ∅, r')
          | r' => parse_members (parse_value d) (length r') r' ∅
          end
      | "[" :: r =>
          match skip_ws r with
          | "]" :: r' => Some (JArr [], r')
          | r' => parse_elements (parse_value d) (length r') r' []
          end
      | "034" :: r =>
          match parse_string r [] with
          | Some (str, r') => Some (JStr str, r')
          | None => None
          end
      | "t" :: _ => expect "true" (JBool true) (skip_ws s)
      | "f" :: _ => expect "false" (JBool false) (skip_ws s)
      | "n" :: _ => expect "null" JNull (skip_ws s)
      | _ => parse_number (skip_ws s)
      end
  end.

(** [JSON.parse(text)]: [None] when it throws a [SyntaxError]. *)
Definition parse (text : string) : option jsval :=
  let s := list_ascii_of_string text in
  match parse_value (S (length s)) s with
  | Some (v, r) => match skip_ws r with [] => Some v | _ => None end
  | None => None
  end.

End JSON.

(* ===================================================================== *)
(** * The auth slice: [src/stores/slices/authSlice.ts] *)
(* ===================================================================== *)

Module authSlice.
Import JS.

(** [User] and [Partial<User>] are objects; the declaration of the fields
    of [User] ([@/types/api/user]) is left open, so that every result
    holds whatever fields it declares. *)
Abbreviation User := (gmap string jsval).

(** The data fields of the store's state object ([user], [token],
    [isAuthenticated] and whatever else a merge copies into it). The
    three actions are the functions below. *)
Abbreviation AuthState := (gmap string jsval).

(** The store together with the browser's [localStorage]. *)
Record Store := mkStore {
  state : AuthState;
  localStorage : gmap string string
}.

(** ** zustand: [persist] options and the wrapped [set] *)

(** [name: 'auth-storage'] *)
Definition name : string := "auth-storage".

(** [partialize: (state) => ({ token: state.token, user: state.user })] *)
Definition partialize (st : AuthState) : object :=
  {[ "token" := get st "token"; "user" := get st "user" ]}.

(** The default [version] of the [persist] options. *)
Definition version : Z := 0.

(** What [persist] stores: [{ state: partialize(state), version }],
    through [JSON.stringify]. *)
Definition envelope (st : AuthState) : jsval :=
  JObj {[ "state" := JObj (partialize st); "version" := JNum version 0 ]}.

Definition setItem (st : AuthState) (ls : gmap string string)
  : gmap string string :=
  <[name := JSON.stringify (envelope st)]> ls.

(** [set(partial)]: zustand merges the partial state into the current one
    ([Object.assign({}, state, partial)]), and [persist] then writes the
    persisted subset of the new state. *)
Definition set (partial : object) (w : Store) : Store :=
  let st' := spread2 (state w) partial in
  {| state := st'; localStorage := setItem st' (localStorage w) |}.

(** ** The slice *)

(** The initial state: [user: null, isAuthenticated: false, token: null]. *)
Definition initial : AuthState :=
  {[ "user" := JNull; "isAuthenticated" := JBool false; "token" := JNull ]}.

Definition login (user : User) (token : string) (w : Store) : Store :=
  set {[ "user" := JObj user;
         "token" := JStr token;
         "isAuthenticated" := JBool true ]} w.

Definition logout (w : Store) : Store :=
  set {[ "user" := JNull;
         "token" := JNull;
         "isAuthenticated" := JBool false ]} w.

Definition updateUser (userData : User) (w : Store) : Store :=
  let currentUser := get (state w) "user" in
  if truthy currentUser then
    set {[ "user" := JObj (spread2 (spread currentUser) userData) ]} w
  else w.

(** ** zustand: hydration when the store is created *)

(** The default [merge] of [persist]:
    [(persisted, current) => ({ ...current, ...persisted })]. *)
Definition merge (persistedState : jsval) (currentState : AuthState)
  : AuthState :=
  spread2 currentState (spread persistedState).

(** [v === n] for a number [v] and an integer [n]. *)
Definition number_is (v : jsval) (n : Z) : bool :=
  match v with
  | JNum m e =>
      if (0 <=? e)%Z then (m * 10 ^ e =? n)%Z else (m =? n * 10 ^ (- e))%Z
  | _ => false
  end.

(** The state to merge, from what the storage returned: nothing when the
    item is missing or falsy; nothing when its [version] is a number
    other than the configured one (no [migrate] is configured, the
    middleware logs an error); its [state] property otherwise. *)
Definition migratedState (deserialized : jsval) : jsval :=
  if truthy deserialized then
    let v := prop deserialized "version" in
    if is_number v && negb (number_is v version)
    then JUndefined
    else prop deserialized "state"
  else JUndefined.

(** [storage.getItem(name)] of the JSON storage over [localStorage]:
    [null] when there is no item, [JSON.parse] of its text otherwise;
    [None] when [JSON.parse] throws. *)
Definition getItem (ls : gmap string string) : option jsval :=
  match ls !! name with
  | None => Some JNull
  | Some text => JSON.parse text
  end.

(** Hydration: a throw of [getItem] is caught by the middleware and
    leaves the initial state; otherwise the state to merge is merged over
    the initial state. The stored text is left as it is. *)
Definition hydrate (ls : gmap string string) : AuthState :=
  match getItem ls with
  | None => initial
  | Some deserialized => merge (migratedState deserialized) initial
  end.

(** [create(devtools(persist(...)))] at module load: the store as the
    application finds it at boot, over the [localStorage] it finds.
    [devtools] only reports to the browser extension. *)
Definition useAuthStore (ls : gmap string string) : Store :=
  {| state := hydrate ls; localStorage := ls |}.

(** A process restart: the memory is lost, [localStorage] survives. *)
Definition restart (w : Store) : Store := useAuthStore (localStorage w).

(** ** Reading the session *)

Definition user (w : Store) : jsval := get (state w) "user".
Definition token (w : Store) : jsval := get (state w) "token".
Definition isAuthenticated (w : Store) : jsval :=
  get (state w) "isAuthenticated".

(** The invariant of the specification:
    [isAuthenticated == (user present AND token present)]. *)
Definition session_invariant (w : Store) : Prop :=
  isAuthenticated w = JBool (present (user w) && present (token w)).

(** The operations of the store that the application performs after the
    boot. *)
Inductive op :=
| Login (u : User) (t : string)
| Logout
| UpdateUser (p : User)
| Restart.

Definition step (w : Store) (o : op) : Store :=
  match o with
  | Login u t => login u t w
  | Logout => logout w
  | UpdateUser p => updateUser p w
  | Restart => restart w
  end.

Definition run (ls : gmap string string) (ops : list op) : Store :=
  foldl step (useAuthStore ls) ops.

Definition is_restart (o : op) : bool :=
  match o with Restart => true | _ => false end.

End authSlice.

(* ===================================================================== *)
(** * Route matching of react-router, as far as the route table uses it *)
(* ===================================================================== *)

Module router.

#[local] Open Scope list_scope.

(** ** Text helpers *)

Definition slash : ascii := "/"%char.

Definition lower (c : ascii) : ascii :=
  let n := N_of_ascii c in
  if ((65 <=? n) && (n <=? 90))%N then ascii_of_N (n + 32) else c.

Fixpoint lowercase (s : string) : string :=
  match s with
  | EmptyString => EmptyString
  | String c s' => String (lower c) (lowercase s')
  end.

(** Comparison under the [i] flag of the compiled pattern (ASCII
    letters). *)
Definition ci_eqb (a b : string) : bool :=
  String.eqb (lowercase a) (lowercase b).

Fixpoint all_slashes (s : string) : bool :=
  match s with
  | EmptyString => true
  | String c s' => Ascii.eqb c slash && all_slashes s'
  end.

Fixpoint strip_leading_slashes (s : string) : string :=
  match s with
  | String c s' => if Ascii.eqb c slash then strip_leading_slashes s' else s
  | EmptyString => EmptyString
  end.

Fixpoint strip_trailing_slashes (s : string) : string :=
  match s with
  | EmptyString => EmptyString
  | String c s' => if all_slashes s then EmptyString
                   else String c (strip_trailing_slashes s')
  end.

Definition starts_with_slash (s : string) : bool :=
  match s with
  | String c _ => Ascii.eqb c slash
  | EmptyString => false
  end.

Fixpoint ends_with_star (s : string) : bool :=
  match s with
  | EmptyString => false
  | String c EmptyString => Ascii.eqb c "*"%char
  | String _ s' => ends_with_star s'
  end.

Fixpoint drop_last (s : string) : string :=
  match s with
  | EmptyString | String _ EmptyString => EmptyString
  | String c s' => String c (drop_last s')
  end.

(** A line terminator, which [.] in a pattern does not match: LF, CR,
    U+2028 and U+2029 (bytes E2 80 A8 and E2 80 A9). *)
Fixpoint has_line_terminator (s : string) : bool :=
  match s with
  | EmptyString => false
  | String c s' =>
      let n := N_of_ascii c in
      ((n =? 10) || (n =? 13))%N
      || match s' with
         | String c1 (String c2 _) =>
             ((n =? 226) && (N_of_ascii c1 =? 128)
              && ((N_of_ascii c2 =? 168) || (N_of_ascii c2 =? 169)))%N
         | _ => false
         end
      || has_line_terminator s'
  end.

(** [s.replace(/\/\/+/g, "/")] *)
Fixpoint collapse_slashes (s : string) : string :=
  match s with
  | EmptyString => EmptyString
  | String c s' =>
      if Ascii.eqb c slash && starts_with_slash s' then collapse_slashes s'
      else String c (collapse_slashes s')
  end.

(** [paths.join("/").replace(/\/\/+/g, "/")] for two paths. *)
Definition joinPaths (a b : string) : string :=
  collapse_slashes (a +:+ "/" +:+ b).

(** [s.split("/")] *)
Fixpoint split_slash (s : string) (cur : string) : list string :=
  match s with
  | EmptyString => [cur]
  | String c s' =>
      if Ascii.eqb c slash then cur :: split_slash s' EmptyString
      else split_slash s' (cur +:+ String c EmptyString)
  end.

(** ** Ranking: [computeScore], [compareIndexes], [rankRouteBranches] *)

Definition is_word_char (c : ascii) : bool :=
  let n := N_of_ascii c in
  (((48 <=? n) && (n <=? 57)) || ((65 <=? n) && (n <=? 90))
   || ((97 <=? n) && (n <=? 122)) || (n =? 95) || (n =? 45))%N.

(** [paramRe = /^:[\w-]+$/] *)
Definition is_param (seg : string) : bool :=
  match seg with
  | String c rest =>
      Ascii.eqb c ":"%char && negb (String.eqb rest "")
      && forallb is_word_char (list_ascii_of_string rest)
  | EmptyString => false
  end.

Definition isSplat (seg : string) : bool := String.eqb seg "*".

Definition dynamicSegmentValue : Z := 3.
Definition indexRouteValue : Z := 2.
Definition emptySegmentValue : Z := 1.
Definition staticSegmentValue : Z := 10.
Definition splatPenalty : Z := -2.

Definition computeScore (path : string) (index : bool) : Z :=
  let segments := split_slash path "" in
  let initialScore :=
    (Z.of_nat (length segments)
     + (if existsb isSplat segments then splatPenalty else 0)
     + (if index then indexRouteValue else 0))%Z in
  foldl (fun score segment =>
           (score + (if is_param segment then dynamicSegmentValue
                     else if String.eqb segment "" then emptySegmentValue
                     else staticSegmentValue))%Z)
        initialScore
        (filter (fun s => isSplat s = false) segments).

Section Routes.
(** What a route renders. *)
Variable element : Type.

(** [<Route path=... index element=...>children</Route>] *)
Inductive RouteObject :=
  Route (path : option string) (index : bool) (el : element)
        (children : list RouteObject).

Record RouteMeta := mkMeta {
  relativePath : string;
  childrenIndex : nat;
  route_element : element
}.

Record RouteBranch := mkBranch {
  branch_path : string;
  score : Z;
  routesMeta : list RouteMeta
}.

(** [flattenRoutes]: one branch per route that has a path or is an
    index route, the children's branches before their parent's. *)
Fixpoint flattenRoute (parentsMeta : list RouteMeta) (parentPath : string)
    (index : nat) (r : RouteObject) : list RouteBranch :=
  match r with
  | Route path idx el children =>
      let rel := default "" path in
      let rel := if starts_with_slash rel
                 then string_of_list_ascii
                        (drop (String.length parentPath) (list_ascii_of_string rel))
                 else rel in
      let meta := {| relativePath := rel; childrenIndex := index;
                     route_element := el |} in
      let path' := joinPaths parentPath rel in
      let metas := parentsMeta ++ [meta] in
      (fix each (i : nat) (rs : list RouteObject) : list RouteBranch :=
         match rs with
         | [] => []
         | r' :: rs' => flattenRoute metas path' i r' ++ each (S i) rs'
         end) 0%nat children
      ++ (if bool_decide (path = None) && negb idx then []
          else [{| branch_path := path'; score := computeScore path' idx;
                   routesMeta := metas |}])
  end.

Fixpoint flattenRoutes_from (i : nat) (routes : list RouteObject)
  : list RouteBranch :=
  match routes with
  | [] => []
  | r :: rs => flattenRoute [] "" i r ++ flattenRoutes_from (S i) rs
  end.

Definition flattenRoutes (routes : list RouteObject) : list RouteBranch :=
  flattenRoutes_from 0 routes.

(** [compareIndexes]: siblings keep the order of the table, other
    branches compare equal. *)
Definition compareIndexes (a b : list nat) : Z :=
  if bool_decide (length a = length b)
     && bool_decide (removelast a = removelast b)
  then (Z.of_nat (List.last a 0%nat) - Z.of_nat (List.last b 0%nat))%Z
  else 0%Z.

(** The comparator of [rankRouteBranches]: higher score first. *)
Definition compareBranches (a b : RouteBranch) : Z :=
  if negb (score a =? score b)%Z then (score b - score a)%Z
  else compareIndexes (map childrenIndex (routesMeta a))
                      (map childrenIndex (routesMeta b)).

Fixpoint insert_sorted (x : RouteBranch) (l : list RouteBranch)
  : list RouteBranch :=
  match l with
  | [] => [x]
  | y :: l' => if (compareBranches y x <? 0)%Z then y :: insert_sorted x l'
               else x :: l
  end.

(** [branches.sort(compareBranches)]; the sort of an array is stable. *)
Definition rankRouteBranches (branches : list RouteBranch) : list RouteBranch :=
  foldr insert_sorted [] branches.

(** ** Matching: [matchPath], [matchRouteBranch], [matchRoutes] *)

(** The literal that the compiled pattern starts with:
    [path.replace(/\/*\*?$/, "").replace(/^\/*/, "/")]. *)
Definition pattern_literal (path : string) : string :=
  let p := if ends_with_star path then drop_last path else path in
  String slash (strip_leading_slashes (strip_trailing_slashes p)).

(** [s.replace(/(.)\/+$/, "$1")] *)
Definition normalize_base (s : string) : string :=
  match s with
  | EmptyString => EmptyString
  | String c s' => String c (strip_trailing_slashes s')
  end.

(** [matchPath({ path, caseSensitive: false, end }, pathname)] for a
    pattern of literal segments with an optional final splat: the
    [pathnameBase] of the match, [None] when the pattern does not
    match. *)
Definition matchPath (path : string) (end_ : bool) (pathname : string)
  : option string :=
  let lit := pattern_literal path in
  let n := String.length lit in
  let head := substring 0 n pathname in
  let rest := substring n (String.length pathname - n) pathname in
  if negb (ci_eqb head lit) then None
  else if ends_with_star path then
    if String.eqb path "*" || String.eqb path "/*" then
      if has_line_terminator rest then None else Some (normalize_base head)
    else if String.eqb rest ""
            || (starts_with_slash rest
                && (all_slashes rest || negb (has_line_terminator rest)))
         then Some (normalize_base head) else None
  else if end_ then
    if all_slashes rest then Some (normalize_base pathname) else None
  else if String.eqb path "" || String.eqb path "/" then
    Some (normalize_base head)
  else if String.eqb rest "" || starts_with_slash rest then
    Some (normalize_base head)
  else None.

(** [matchRouteBranch]: the routes of the branch are matched from the
    outermost one, each against what the ones before left over; the
    last one has to match up to the end. *)
Fixpoint matchMetas (metas : list RouteMeta) (matchedPathname : string)
    (pathname : string) : option (list element) :=
  match metas with
  | [] => Some []
  | meta :: metas' =>
      let end_ := bool_decide (metas' = []) in
      let remaining :=
        if String.eqb matchedPathname "/" then pathname
        else
          let r := string_of_list_ascii
                     (drop (String.length matchedPathname)
                           (list_ascii_of_string pathname)) in
          if String.eqb r "" then "/" else r in
      match matchPath (relativePath meta) end_ remaining with
      | None => None
      | Some base =>
          let matched' :=
            if String.eqb base "/" then matchedPathname
            else joinPaths matchedPathname base in
          match matchMetas metas' matched' pathname with
          | None => None
          | Some els => Some (route_element meta :: els)
          end
      end
  end.

Definition matchRouteBranch (b : RouteBranch) (pathname : string)
  : option (list element) :=
  matchMetas (routesMeta b) "/" pathname.

Fixpoint first_match (branches : list RouteBranch) (pathname : string)
  : option (list element) :=
  match branches with
  | [] => None
  | b :: bs =>
      match matchRouteBranch b pathname with
      | Some els => Some els
      | None => first_match bs pathname
      end
  end.

(** [matchRoutes(routes, { pathname })]: the elements of the routes of
    the best-ranked branch that matches, outermost first. *)
Definition matchRoutes (routes : list RouteObject) (pathname : string)
  : option (list element) :=
  first_match (rankRouteBranches (flattenRoutes routes)) pathname.

End Routes.

Arguments Route {element} path index el children.
Arguments relativePath {element} _.
Arguments childrenIndex {element} _.
Arguments route_element {element} _.
Arguments branch_path {element} _.
Arguments score {element} _.
Arguments routesMeta {element} _.
Arguments flattenRoutes {element} routes.
Arguments rankRouteBranches {element} branches.
Arguments matchRouteBranch {element} b pathname.
Arguments first_match {element} branches pathname.
Arguments matchRoutes {element} routes pathname.

End router.

(* ===================================================================== *)
(** * The router of the application: [src/router/AppRouter.tsx] *)
(* ===================================================================== *)

Module AppRouter.
Import JS authSlice router.

#[local] Open Scope list_scope.

(** The pages declared with [React.lazy]; each has its loader
    [() => import('@/pages/...')]. *)
Inductive page := Dashboard | Users | Settings | Login | NotFound.

#[global] Instance page_eq_dec : EqDecision page.
Proof. solve_decision. Defined.

(** The elements that the route table mentions. *)
Inductive element :=
| Lazy (pg : page)                      (* [<Dashboard />], ... *)
| Navigate (to : string)                (* [<Navigate to=... replace />] *)
| EProtectedRoute (children : element)  (* [<ProtectedRoute>...] *)
| EPublicRoute (children : element)     (* [<PublicRoute>...] *)
| Layout.                               (* [<Layout />] *)

(** What a guard component returns: [<Navigate to=... replace />] or the
    fragment of its children. *)
Inductive guarded :=
| Redirect (to : string)
| Children.

(** [useAuthStore(state => state.isAuthenticated)] *)
Definition select_isAuthenticated (st : AuthState) : jsval :=
  get st "isAuthenticated".

Definition ProtectedRoute (st : AuthState) : guarded :=
  let isAuthenticated := select_isAuthenticated st in
  if negb (truthy isAuthenticated) then Redirect "/login"
  else Children.

Definition PublicRoute (st : AuthState) : guarded :=
  let isAuthenticated := select_isAuthenticated st in
  if truthy isAuthenticated then Redirect "/dashboard"
  else Children.

(** The route table of [AppRouter]. *)
Definition routes : list (RouteObject element) :=
  [ Route (Some "/login") false (EPublicRoute (Lazy Login)) [];
    Route (Some "/") false (EProtectedRoute Layout)
      [ Route None true (Navigate "/dashboard") [];
        Route (Some "dashboard") false (Lazy Dashboard) [];
        Route (Some "users") false (Lazy Users) [];
        Route (Some "settings") false (Lazy Settings) [] ];
    Route (Some "*") false (Lazy NotFound) [] ].

(** ** The vocabulary of the specification *)

Inductive visibility := PUBLIC | PROTECTED.

Definition ALLOW : guarded := Children.
Definition REDIRECT_TO_LOGIN : guarded := Redirect "/login".
Definition REDIRECT_TO_HOME : guarded := Redirect "/dashboard".

(** The guard that the table wraps around a screen of each
    visibility. *)
Definition decide (v : visibility) (st : AuthState) : guarded :=
  match v with
  | PROTECTED => ProtectedRoute st
  | PUBLIC => PublicRoute st
  end.

(** ** Rendering *)

(** What a render pass does, in order: a lazy page's loader is invoked,
    a page or the layout is mounted, a [<Navigate>] asks for another
    location. *)
Inductive event :=
| LoadChunk (pg : page)
| Mount (pg : page)
| MountLayout
| NavigateTo (to : string).

(** A render step over the pages whose chunk has been loaded so far. *)
Definition rendering := list page → list event * list page.

(** A lazy page invokes its loader the first time it is rendered and
    never again; the page mounts once the chunk is there (the
    [Suspense] boundary shows [LoadingSpinner] meanwhile). *)
Definition render_lazy (pg : page) : rendering :=
  fun loaded =>
    if bool_decide (pg ∈ loaded) then ([Mount pg], loaded)
    else ([LoadChunk pg; Mount pg], pg :: loaded).

(** Modelled from the spec: [Layout] ([@/components/layout/Layout]) is
    not among the sources. As the element of the route that has the
    screens as its children it is taken to mount and to render the
    matched child route in its [<Outlet />]. *)
Definition render_Layout (outlet : rendering) : rendering :=
  fun loaded =>
    let '(evs, loaded') := outlet loaded in (MountLayout :: evs, loaded').

(** Rendering an element whose [<Outlet />], if it renders one, shows
    [outlet]. A guard that redirects does not render its children. *)
Fixpoint render (st : AuthState) (e : element) (outlet : rendering)
  : rendering :=
  match e with
  | Lazy pg => render_lazy pg
  | Navigate to => fun loaded => ([NavigateTo to], loaded)
  | EProtectedRoute children =>
      match ProtectedRoute st with
      | Redirect to => fun loaded => ([NavigateTo to], loaded)
      | Children => render st children outlet
      end
  | EPublicRoute children =>
      match PublicRoute st with
      | Redirect to => fun loaded => ([NavigateTo to], loaded)
      | Children => render st children outlet
      end
  | Layout => render_Layout outlet
  end.

(** The matched routes, outermost first: each element is rendered with
    the next one as its outlet. *)
Fixpoint render_matches (st : AuthState) (els : list element) : rendering :=
  match els with
  | [] => fun loaded => ([], loaded)
  | e :: els' => render st e (render_matches st els')
  end.

(** One render pass of [<Routes>] at a location; nothing is rendered
    when no route matches. *)
Definition render_location (st : AuthState) (pathname : string) : rendering :=
  match matchRoutes routes pathname with
  | None => fun loaded => ([], loaded)
  | Some els => render_matches st els
  end.

Fixpoint requested (evs : list event) : option string :=
  match evs with
  | [] => None
  | NavigateTo to :: _ => Some to
  | _ :: evs' => requested evs'
  end.

(** Where a navigation ends, what happened on the way, and the chunks
    loaded by then. *)
Record outcome := mkOutcome {
  location : string;
  trace : list event;
  chunks : list page
}.

(** A navigation intent: the location is rendered, and a [<Navigate>]
    that was rendered replaces the location and renders again. [None]
    when [hops] render passes were not enough to settle. *)
Fixpoint navigate (hops : nat) (st : AuthState) (pathname : string)
    (loaded : list page) : option outcome :=
  match hops with
  | O => None
  | S hops' =>
      let '(evs, loaded') := render_location st pathname loaded in
      match requested evs with
      | None => Some {| location := pathname; trace := evs; chunks := loaded' |}
      | Some to =>
          match navigate hops' st to loaded' with
          | None => None
          | Some o => Some {| location := location o;
                              trace := evs ++ trace o;
                              chunks := chunks o |}
          end
      end
  end.

(** The paths that the table declares: a pathname is declared when a
    branch other than the one of the ["*"] route matches it. *)
Definition declared_branches : list (RouteBranch element) :=
  filter (fun b => existsb isSplat (split_slash (branch_path b) "") = false)
         (rankRouteBranches (flattenRoutes routes)).

Definition declared (pathname : string) : bool :=
  existsb (fun b => bool_decide (is_Some (matchRouteBranch b pathname)))
          declared_branches.

(** The branches of the table in the order of their rank, computed. *)
Definition ranked : list (RouteBranch element) :=
  Eval vm_compute in rankRouteBranches (flattenRoutes routes).

(** The elements of the routes of a branch, outermost first. *)
Definition elements_of (b : RouteBranch element) : list element :=
  map route_element (routesMeta b).

(** A pathname as the browser reports it: it starts with a slash and holds
    no line terminator. *)
Definition is_pathname (p : string) : bool :=
  starts_with_slash p && negb (has_line_terminator p).

(** The lazy pages that the routes matched at a location would show. *)
Fixpoint pages_of (e : element) : list page :=
  match e with
  | Lazy pg => [pg]
  | EProtectedRoute c | EPublicRoute c => pages_of c
  | Navigate _ | Layout => []
  end.

Definition target_pages (pathname : string) : list page :=
  match matchRoutes routes pathname with
  | None => []
  | Some els => flat_map pages_of els
  end.

End AppRouter.

(* ===================================================================== *)
(** * The error boundary: [src/components/common/ErrorBoundary.tsx] *)
(* ===================================================================== *)

Module ErrorBoundary.

#[local] Open Scope list_scope.

(** [Error]: its message and, when there is one, its stack. *)
Record Error := mkError {
  message : string;
  stack : option string
}.

(** [ReactNode]: the primitives that React accepts as a node, or an
    element, here given by a name. *)
Inductive ReactNode :=
| NUndefined
| NNull
| NBool (b : bool)
| NNum (n : Z)
| NStr (s : string)
| NElement (tag : string).

(** [ToBoolean] of a node. *)
Definition truthy (n : ReactNode) : bool :=
  match n with
  | NUndefined | NNull => false
  | NBool b => b
  | NNum z => negb (z =? 0)%Z
  | NStr s => negb (String.eqb s "")
  | NElement _ => true
  end.

(** [fallback?: ReactNode]: a prop that is not passed reads as
    [undefined]. *)
Record Props := mkProps {
  children : ReactNode;
  fallback : ReactNode
}.

Record State := mkState {
  hasError : bool;
  error : option Error
}.

(** [public state: State = { hasError: false }] *)
Definition initial : State := {| hasError := false; error := None |}.

Definition getDerivedStateFromError (e : Error) : State :=
  {| hasError := true; error := Some e |}.

(** What a method does besides updating the state. *)
Inductive effect :=
| ConsoleError   (* [console.error('Uncaught error:', error, errorInfo)] *)
| Reload.        (* [window.location.reload()] *)

(** A method of the component: the next state and the effects. *)
Definition method := State → State * list effect.

Definition componentDidCatch (e : Error) : method :=
  fun s => (s, [ConsoleError]).

(** [this.setState({ hasError: false, error: undefined })] *)
Definition handleReset : method :=
  fun _ => ({| hasError := false; error := None |}, []).

(** [window.location.reload()] *)
Definition handleReload : method :=
  fun s => (s, [Reload]).

(** A [<Button onClick=...>label</Button>]. *)
Record Button := mkButton {
  label : string;
  onClick : method
}.

(** The box with the details of the error: its message and its stack. *)
Record Details := mkDetails {
  details_message : string;
  details_stack : option string
}.

Inductive view :=
| Node (n : ReactNode)
| FailureScreen (heading : string) (text : string)
                (details : option Details) (buttons : list Button).

(** [render()]; [dev] is [import.meta.env.DEV]. *)
Definition render (dev : bool) (props : Props) (s : State) : view :=
  if hasError s then
    if truthy (fallback props) then Node (fallback props)
    else
      FailureScreen
        "Oops! Something went wrong"
        "We're sorry, but something unexpected happened. Please try refreshing the page."
        (match error s with
         | Some e =>
             if dev then
               Some {| details_message := message e;
                       details_stack :=
                         match stack e with
                         | Some t => if String.eqb t "" then None else Some t
                         | None => None
                         end |}
             else None
         | None => None
         end)
        [ {| label := "Refresh Page"; onClick := handleReload |};
          {| label := "Try Again"; onClick := handleReset |} ]
  else Node (children props).

End ErrorBoundary.

(* ===================================================================== *)
(** * The form machine: [src/stores/machines/formMachine.ts] and
      [src/hooks/business/useFormMachine.ts] *)
(* ===================================================================== *)

Module formMachine.
Import JS.

#[local] Open Scope list_scope.

(** [FormContext]. [errors] is declared a record of strings; at run time
    it holds whatever an invoked service was rejected with. *)
Record FormContext := mkContext {
  data : object;
  errors : jsval;
  submitCount : Z
}.

(** [FormEvent] *)
Inductive FormEvent :=
| SUBMIT (d : object)
| VALIDATE (field : string) (v : jsval)
| RESET
| SUCCESS
| ERROR (errs : object).

(** The ids of the invoked services. *)
Inductive service := validateForm | submitForm.

(** What the machine receives: an event sent by the form, or the
    [done.invoke.<id>] and [error.platform.<id>] events of a service,
    with their [data]. *)
Inductive event :=
| Sent (e : FormEvent)
| DoneInvoke (id : service) (d : jsval)
| ErrorPlatform (id : service) (d : jsval).

Inductive StateValue := idle | validating | submitting | success.

Record State := mkState {
  value : StateValue;
  context : FormContext
}.

(** [context: { data: {}, errors: {}, submitCount: 0 }], [initial: 'idle'] *)
Definition initialContext : FormContext :=
  {| data := ∅; errors := JObj ∅; submitCount := 0 |}.

Definition initialState : State :=
  {| value := idle; context := initialContext |}.

(** [machine.transition(state, event)]: the transitions of [states], each
    with its [assign] actions. An event that the current state does not
    handle leaves the state as it is. *)
Definition transition (s : State) (ev : event) : State :=
  let ctx := context s in
  match value s, ev with
  | idle, Sent (SUBMIT d) =>
      {| value := validating;
         context := {| data := d;
                       errors := errors ctx;
                       submitCount := submitCount ctx + 1 |} |}
  | idle, Sent (VALIDATE field v) =>
      {| value := idle;
         context := {| data := <[field := v]> (data ctx);
                       errors := errors ctx;
                       submitCount := submitCount ctx |} |}
  | validating, DoneInvoke validateForm _ =>
      {| value := submitting;
         context := {| data := data ctx;
                       errors := JObj ∅;
                       submitCount := submitCount ctx |} |}
  | validating, ErrorPlatform validateForm d =>
      {| value := idle;
         context := {| data := data ctx;
                       errors := d;
                       submitCount := submitCount ctx |} |}
  | submitting, DoneInvoke submitForm _ =>
      {| value := success; context := ctx |}
  | submitting, ErrorPlatform submitForm d =>
      {| value := idle;
         context := {| data := data ctx;
                       errors := d;
                       submitCount := submitCount ctx |} |}
  | success, Sent RESET =>
      {| value := idle; context := initialContext |}
  | _, _ => s
  end.

(** How a promise settles. *)
Inductive settled (A : Type) :=
| Resolved (a : A)
| Rejected (reason : jsval).
Arguments Resolved {A} a.
Arguments Rejected {A} reason.

(** A call of one of the two functions given to [useFormMachine]. *)
Inductive call :=
| Called (id : service) (d : object).

Section Services.
(** [validateFn] resolves to the object of the errors it found, or is
    rejected; [submitFn] resolves to anything, or is rejected. *)
Variable validateFn : object → settled object.
Variable submitFn : object → settled jsval.

(** The service [validateForm]: [validateFn(context.data)], thrown again
    when it names an error ([Object.keys(errors).length > 0]). *)
Definition run_validateForm (ctx : FormContext) : event :=
  match validateFn (data ctx) with
  | Rejected r => ErrorPlatform validateForm r
  | Resolved errs =>
      if (0 <? size errs)%nat then ErrorPlatform validateForm (JObj errs)
      else DoneInvoke validateForm (JBool true)
  end.

(** The service [submitForm]: [submitFn(context.data)]. *)
Definition run_submitForm (ctx : FormContext) : event :=
  match submitFn (data ctx) with
  | Resolved v => DoneInvoke submitForm v
  | Rejected r => ErrorPlatform submitForm r
  end.

(** The service invoked by the current state, if it invokes one, runs and
    its event is taken. *)
Definition settle1 (s : State) : State * list call :=
  match value s with
  | validating =>
      (transition s (run_validateForm (context s)),
       [Called validateForm (data (context s))])
  | submitting =>
      (transition s (run_submitForm (context s)),
       [Called submitForm (data (context s))])
  | idle | success => (s, [])
  end.

(** The invoked services settle one after the other: validation, then
    submission. *)
Definition settle (s : State) : State * list call :=
  let '(s1, c1) := settle1 s in
  let '(s2, c2) := settle1 s1 in
  (s2, c1 ++ c2).

(** [send(event)] and the settlement of the services it sets off: the
    state once the promises of the invoked services have settled, and the
    calls made. The states in between, in which the machine is while a
    promise is pending ([validating], [submitting]), are those of
    [transition]; a promise that never settles leaves the machine
    there. *)
Definition send (e : FormEvent) (s : State) : State * list call :=
  settle (transition s (Sent e)).

(** A sequence of events sent one after the other, with every call made
    on the way. *)
Fixpoint sendAll (es : list FormEvent) (s : State) : State * list call :=
  match es with
  | [] => (s, [])
  | e :: es' =>
      let '(s1, c1) := send e s in
      let '(s2, c2) := sendAll es' s1 in
      (s2, c1 ++ c2)
  end.

End Services.

(** The machine is at rest in [idle] and in [success], the two states
    that invoke no service. *)
Definition at_rest (s : State) : Prop := value s = idle ∨ value s = success.

(** [state.matches(v)] of [useFormMachine]. *)
Definition matches (s : State) (v : StateValue) : bool :=
  match value s, v with
  | idle, idle | validating, validating
  | submitting, submitting | success, success => true
  | _, _ => false
  end.

Definition is_submit (e : FormEvent) : bool :=
  match e with SUBMIT _ => true | _ => false end.

End formMachine.

(* ===================================================================== *)
(** * The query client of the application: [src/App.tsx] *)
(* ===================================================================== *)

Module App.
Import JS.

(** [v >= n] and [v < n] for an integer [n]. [undefined] converts to
    [NaN], which compares [false]; [null] to [0], a boolean to [0] or
    [1]. [None] for a string, an array or an object, whose conversion to
    a number is not modelled. *)
Definition decimal_ge (m e n : Z) : bool :=
  if (0 <=? e)%Z then (n <=? m * 10 ^ e)%Z else (n * 10 ^ (- e) <=? m)%Z.

Definition js_ge (v : jsval) (n : Z) : option bool :=
  match v with
  | JUndefined => Some false
  | JNull => Some (n <=? 0)%Z
  | JBool b => Some (n <=? (if b then 1 else 0))%Z
  | JNum m e => Some (decimal_ge m e n)
  | JStr _ | JArr _ | JObj _ => None
  end.

Definition js_lt (v : jsval) (n : Z) : option bool :=
  match v with
  | JUndefined => Some false
  | JNull => Some (0 <? n)%Z
  | JBool b => Some ((if b then 1 else 0) <? n)%Z
  | JNum m e => Some (negb (decimal_ge m e n))
  | JStr _ | JArr _ | JObj _ => None
  end.

(** [error?.response?.status] *)
Definition response_status (error : jsval) : jsval :=
  prop (prop error "response") "status".

(** [defaultOptions.queries.retry]: no retry on a 4xx, three attempts
    otherwise. [None] when the status is a string, an array or an
    object. *)
Definition retry (failureCount : Z) (error : jsval) : option bool :=
  match js_ge (response_status error) 400 with
  | None => None
  | Some false => Some (failureCount <? 3)%Z
  | Some true =>
      match js_lt (response_status error) 500 with
      | None => None
      | Some true => Some false
      | Some false => Some (failureCount <? 3)%Z
      end
  end.

(** [staleTime: 5 * 60 * 1000], [cacheTime: 10 * 60 * 1000] *)
Definition staleTime : Z := 5 * 60 * 1000.
Definition cacheTime : Z := 10 * 60 * 1000.

(** [defaultOptions.mutations.retry] *)
Definition mutations_retry : bool := false.

End App.

(* ===================================================================== *)
(** * The hook [useAsyncOperation] of the error handling patterns *)
(* ===================================================================== *)

Module useAsyncOperation.
Import JS.

Record state := mkState {
  data : jsval;
  error : jsval;
  loading : bool
}.

(** [useState({ data: null, error: null, loading: false })] *)
Definition initial : state :=
  {| data := JNull; error := JNull; loading := false |}.

(** How [operation()] settles. *)
Inductive settled :=
| Resolved (d : jsval)
| Rejected (e : jsval).

(** The two state updates of [execute]: the one before the operation is
    awaited, [setState(prev => ({ ...prev, loading: true, error: null }))],
    and the one after it has settled. *)
Inductive update :=
| Started
| Settled (o : settled).

Definition setState (s : state) (u : update) : state :=
  match u with
  | Started => {| data := data s; error := JNull; loading := true |}
  | Settled (Resolved d) => {| data := d; error := JNull; loading := false |}
  | Settled (Rejected e) => {| data := JNull; error := e; loading := false |}
  end.

(** The updates of any number of calls of [execute], in the order in
    which they reach the state. *)
Definition updates (us : list update) (s : state) : state :=
  foldl setState s us.

(** One call of [execute] that nothing overlaps. *)
Definition execute (o : settled) (s : state) : state :=
  updates [Started; Settled o] s.

(** The calls of [execute] that have started and not settled. *)
Fixpoint pending (us : list update) (n : nat) : nat :=
  match us with
  | [] => n
  | Started :: us' => pending us' (S n)
  | Settled _ :: us' => pending us' (Nat.pred n)
  end.

End useAsyncOperation.

(* ===================================================================== *)
(** * The mock handlers: [src/__tests__/mocks/handlers.ts] *)
(* ===================================================================== *)

Module handlers.
Import JS.

Record response := mkResponse {
  status : Z;
  json : jsval
}.

(** [rest.get('/api/users', ...)]: the status is the default one. *)
Definition get_users : response :=
  {| status := 200;
     json := JArr [ JObj {[ "id" := JStr "1"; "name" := JStr "John Doe";
                            "email" := JStr "john@example.com" ]};
                    JObj {[ "id" := JStr "2"; "name" := JStr "Jane Smith";
                            "email" := JStr "jane@example.com" ]} ] |}.

(** [rest.post('/api/users', ...)] on the parsed body [newUser]:
    [ctx.status(201)], [ctx.json({ id: '3', ...newUser })]. *)
Definition post_users (newUser : jsval) : response :=
  {| status := 201;
     json := JObj (spread2 {[ "id" := JStr "3" ]} (spread newUser)) |}.

End handlers.

(* ===================================================================== *)
(** * The dashboard page: [src/pages/Dashboard.tsx] *)
(* ===================================================================== *)

Module Dashboard.
Import JS.

#[local] Open Scope list_scope.

(** A row of the recent activity: [key={user.id}] and the two values
    shown, [{user.fullName} - {user.email}]. *)
Record row := mkRow {
  key : jsval;
  fullName : jsval;
  email : jsval
}.

(** What the box of the recent activity holds. *)
Inductive activity :=
| LoadingUsers            (* [Loading recent users...] *)
| Nothing                 (* [undefined]: no data *)
| Rows (rs : list row).

(** What the component function returns; [Threw] when it throws a
    [TypeError] instead. *)
Inductive rendered :=
| Threw
| ErrorBox                (* [Error loading dashboard data] *)
| Page (totalUsers : jsval) (recent : activity).

(** [user => <Box key={user.id}>{user.fullName} - {user.email}</Box>]:
    reading a property of [null] or [undefined] throws. *)
Definition render_row (user : jsval) : option row :=
  if present user then
    Some {| key := prop user "id";
            fullName := prop user "fullName";
            email := prop user "email" |}
  else None.

(** [users.map(render_row)], which throws as soon as one row does. *)
Fixpoint map_rows (users : list jsval) : option (list row) :=
  match users with
  | [] => Some []
  | u :: users' =>
      match render_row u with
      | None => None
      | Some r =>
          match map_rows users' with
          | None => None
          | Some rs => Some (r :: rs)
          end
      end
  end.

(** [usersData?.users.map(...)]: nothing without data; with data, [users]
    has to be an array. *)
Definition recent_users (usersData : jsval) : option activity :=
  if present usersData then
    match prop usersData "users" with
    | JArr users =>
        match map_rows users with
        | Some rs => Some (Rows rs)
        | None => None
        end
    | _ => None
    end
  else Some Nothing.

(** The component on the result [{ data: usersData, isLoading, error }] of
    [useUsers({ limit: 5 })]. *)
Definition Dashboard (usersData isLoading error : jsval) : rendered :=
  if truthy error then ErrorBox
  else
    let totalUsers :=
      if truthy isLoading then JStr "..."
      else
        let total := prop usersData "total" in
        if truthy total then total else JNum 0 0 in
    if truthy isLoading then Page totalUsers LoadingUsers
    else
      match recent_users usersData with
      | Some a => Page totalUsers a
      | None => Threw
      end.

End Dashboard.

(* ===================================================================== *)
(** * Sequences of navigations and of boundary events *)
(* ===================================================================== *)

Module Sessions.
Import JS authSlice AppRouter.

#[local] Open Scope list_scope.

(** The loaders invoked in a trace. *)
Fixpoint loads (evs : list event) : list page :=
  match evs with
  | [] => []
  | LoadChunk pg :: evs' => pg :: loads evs'
  | _ :: evs' => loads evs'
  end.

(** One navigation after the other, each in the session state of its
    time, over the chunks loaded so far: the whole trace and the chunks
    loaded at the end. Two render passes settle every navigation. *)
Fixpoint browse (visits : list (AuthState * string)) (loaded : list page)
  : list event * list page :=
  match visits with
  | [] => ([], loaded)
  | (st, pathname) :: visits' =>
      match navigate 2 st pathname loaded with
      | None => browse visits' loaded
      | Some o =>
          let '(evs, loaded') := browse visits' (chunks o) in
          (trace o ++ evs, loaded')
      end
  end.

(** What happens to an error boundary: a descendant throws while
    rendering, or one of the two buttons is clicked. *)
Inductive boundary_event :=
| Thrown (e : ErrorBoundary.Error)
| ClickTryAgain
| ClickRefreshPage.

(** The state after an event: [getDerivedStateFromError] and then
    [componentDidCatch] when a descendant throws, the handler of the
    button on a click. *)
Definition boundary_step (s : ErrorBoundary.State) (ev : boundary_event)
  : ErrorBoundary.State :=
  match ev with
  | Thrown e => (ErrorBoundary.componentDidCatch e
                   (ErrorBoundary.getDerivedStateFromError e)).1
  | ClickTryAgain => (ErrorBoundary.handleReset s).1
  | ClickRefreshPage => (ErrorBoundary.handleReload s).1
  end.

Definition boundary_run (evs : list boundary_event) : ErrorBoundary.State :=
  foldl boundary_step ErrorBoundary.initial evs.

End Sessions.

(* ===================================================================== *)
(** * Concrete inputs used by the examples below *)
(* ===================================================================== *)

Module Samples.
Import JS authSlice.

(** JSON text is written with an apostrophe for each double quote. *)
Fixpoint json_text (s : string) : string :=
  match s with
  | EmptyString => EmptyString
  | String c s' =>
      String (if Ascii.eqb c "'"%char then "034"%char else c) (json_text s')
  end.

(** The first user of the mock handlers of the test suite. *)
Definition john : User :=
  {[ "id" := JStr "1"; "name" := JStr "John Doe";
     "email" := JStr "john@example.com" ]}.

(** A store created over an empty [localStorage]. *)
Definition fresh : Store := useAuthStore ∅.

(** [john] logged in with the token ["tok"]. *)
Definition logged_in : Store := login john "tok" fresh.

(** The text that [JSON.stringify] writes for [logged_in] in the browser. *)
Definition persisted_john : string :=
  json_text "{'state':{'token':'tok','user':{'id':'1','name':'John Doe','email':'john@example.com'}},'version':0}".




(** A state with the flag set, as after a login. *)
Definition authenticated : AuthState := state logged_in.

(** An error caught by the boundary, and an application subtree. *)
Definition boom : ErrorBoundary.Error :=
  {| ErrorBoundary.message := "Loading chunk failed";
     ErrorBoundary.stack := None |}.

Definition app : ErrorBoundary.ReactNode := ErrorBoundary.NElement "BrowserRouter".

End Samples.

Module MoreSamples.
Import JS authSlice Samples.




End MoreSamples.

(* ===================================================================== *)
(** * Properties of the session store *)
(* ===================================================================== *)

Section SessionStore.
Import JS authSlice Samples.

(** ** Reading a state after [set] *)

Lemma get_spread2 (a b : object) (k : string) :
  get (spread2 a b) k = match b !! k with Some v => v | None => get a k end.
Proof.
  unfold get, spread2. rewrite lookup_union.
  destruct (b !! k), (a !! k); reflexivity.
Qed.

Lemma get_set (partial : object) (w : Store) (k : string) :
  get (state (set partial w)) k
  = match partial !! k with Some v => v | None => get (state w) k end.
Proof. unfold set; simpl. apply get_spread2. Qed.

(** [set] writes the envelope of the new state, and nothing else. *)
Lemma localStorage_set (partial : object) (w : Store) :
  localStorage (set partial w)
  = <[name := JSON.stringify (envelope (state (set partial w)))]> (localStorage w).
Proof. reflexivity. Qed.

(** The stored text is a function of [token] and [user] alone. *)
Lemma envelope_only_token_user (st st' : AuthState) :
  get st "token" = get st' "token" → get st "user" = get st' "user" →
  envelope st = envelope st'.
Proof. intros Ht Hu. unfold envelope, partialize. by rewrite Ht Hu. Qed.

(** ** The three actions *)

Lemma login_fields (u : User) (t : string) (w : Store) :
  user (login u t w) = JObj u ∧ token (login u t w) = JStr t
  ∧ isAuthenticated (login u t w) = JBool true.
Proof.
  unfold user, token, isAuthenticated, login.
  rewrite !get_set. by simplify_map_eq.
Qed.

Lemma logout_fields (w : Store) :
  user (logout w) = JNull ∧ token (logout w) = JNull
  ∧ isAuthenticated (logout w) = JBool false.
Proof.
  unfold user, token, isAuthenticated, logout.
  rewrite !get_set. by simplify_map_eq.
Qed.

Lemma truthy_present (v : jsval) : truthy v = true → present v = true.
Proof. by destruct v. Qed.

Lemma updateUser_keeps (p : User) (w : Store) :
  token (updateUser p w) = token w
  ∧ isAuthenticated (updateUser p w) = isAuthenticated w
  ∧ present (user (updateUser p w)) = present (user w).
Proof.
  unfold updateUser, user, token, isAuthenticated.
  destruct (truthy (get (state w) "user")) eqn:Hu; [|done].
  rewrite !get_set. simplify_map_eq.
  by rewrite (truthy_present _ Hu).
Qed.

(** Each action keeps the invariant. *)
Lemma action_keeps_invariant (w : Store) (o : op) :
  is_restart o = false → session_invariant w → session_invariant (step w o).
Proof.
  unfold session_invariant. intros Ho Hw. destruct o as [u t| |p|]; simpl.
  - by destruct (login_fields u t w) as (-> & -> & ->).
  - by destruct (logout_fields w) as (-> & -> & ->).
  - by destruct (updateUser_keeps p w) as (-> & -> & ->).
  - discriminate.
Qed.

Lemma initial_invariant (ls : gmap string string) :
  ls !! name = None → session_invariant (useAuthStore ls).
Proof.
  intros H. unfold session_invariant, user, token, isAuthenticated,
    useAuthStore, hydrate, getItem; simpl. by rewrite H.
Qed.

Lemma actions_keep_invariant (ops : list op) (w : Store) :
  forallb (fun o => negb (is_restart o)) ops = true →
  session_invariant w → session_invariant (foldl step w ops).
Proof.
  revert w. induction ops as [|o ops IH]; intros w Hops Hw; [done|].
  simpl in *. apply andb_prop in Hops as [Ho Hops].
  apply IH; [done|]. apply action_keeps_invariant; [|done].
  by destruct (is_restart o).
Qed.

(** X28. Without a restart, the invariant holds along every sequence of
    actions on a store that booted without a persisted session. *)
Lemma invariant_without_restart (ls : gmap string string) (ops : list op) :
  ls !! name = None →
  forallb (fun o => negb (is_restart o)) ops = true →
  session_invariant (run ls ops).
Proof.
  intros Hls Hops. apply actions_keep_invariant; [done|].
  by apply initial_invariant.
Qed.

(** ** Hydration *)

(** Hydration of a parsed envelope copies the persisted properties over
    the initial state: [isAuthenticated] keeps its initial [false]
    unless the stored record itself carries the property. *)
Lemma hydrate_parsed (ls : gmap string string) (text : string) (o : object) :
  ls !! name = Some text →
  JSON.parse text
  = Some (JObj {[ "state" := JObj o; "version" := JNum version 0 ]}) →
  hydrate ls = o ∪ initial.
Proof.
  intros Hls Hp. unfold hydrate, getItem. rewrite Hls Hp.
  unfold merge, migratedState, prop, get; simpl. by simplify_map_eq.
Qed.

(** X29. Whenever the persisted text of a login reads back as written,
    the restart restores [user] and [token] and leaves the flag [false]. *)
Lemma restart_after_login (u : User) (t : string) (w : Store) :
  JSON.parse (JSON.stringify (envelope (state (login u t w))))
  = Some (envelope (state (login u t w))) →
  user (restart (login u t w)) = JObj u
  ∧ token (restart (login u t w)) = JStr t
  ∧ isAuthenticated (restart (login u t w)) = JBool false.
Proof.
  intros Hp. unfold restart, useAuthStore, user, token, isAuthenticated; simpl.
  erewrite hydrate_parsed; [| |exact Hp]; [|by rewrite lookup_insert_eq].
  destruct (login_fields u t w) as (Hu & Ht & _).
  unfold user, token in Hu, Ht. unfold partialize.
  rewrite Hu Ht. unfold get. clear.
  repeat split; reflexivity.
Qed.

(** ** The claims on the session store *)

(** C1. The invariant [isAuthenticated == (user present AND token
    present)] holds after a login, and the rehydration of the next boot
    breaks it: [user] and [token] come back from the storage, while the
    flag is neither stored nor derived and stays [false]. The state after
    a login and a restart is reachable and violates the invariant. *)
Theorem restart_breaks_session_invariant :
  session_invariant (run ∅ [Login john "tok"])
  ∧ user (run ∅ [Login john "tok"; Restart]) = JObj john
  ∧ token (run ∅ [Login john "tok"; Restart]) = JStr "tok"
  ∧ isAuthenticated (run ∅ [Login john "tok"; Restart]) = JBool false
  ∧ ¬ session_invariant (run ∅ [Login john "tok"; Restart]).
Proof.
  assert (Hs : state (run ∅ [Login john "tok"; Restart])
               = <["isAuthenticated" := JBool false]> (state logged_in))
    by (vm_compute; reflexivity).
  unfold session_invariant, user, token, isAuthenticated. rewrite Hs.
  repeat split; try reflexivity. discriminate.
Qed.

(** C2. [login(u, t)] followed by a restart: the storage holds the
    envelope of [token] and [user] only, and the rehydrated session is
    [{user = u, token = t, isAuthenticated = false}], not the session with
    the flag [true] that the round trip should reproduce. The same holds
    for the text as the browser writes it. *)
Theorem login_restart_loses_flag :
  JSON.parse <$> localStorage logged_in !! name
  = Some (Some (JObj {[ "state" := JObj {[ "token" := JStr "tok";
                                            "user" := JObj john ]};
                        "version" := JNum 0 0 ]}))
  ∧ JSON.parse <$> localStorage logged_in !! name
    = Some (JSON.parse persisted_john)
  ∧ state logged_in
    = {[ "user" := JObj john; "token" := JStr "tok";
         "isAuthenticated" := JBool true ]}
  ∧ state (restart logged_in)
    = {[ "user" := JObj john; "token" := JStr "tok";
         "isAuthenticated" := JBool false ]}
  ∧ state (useAuthStore {[ name := persisted_john ]})
    = {[ "user" := JObj john; "token" := JStr "tok";
         "isAuthenticated" := JBool false ]}.
Proof. repeat split; vm_compute; reflexivity. Qed.

(** C4, as stated, fails: a login with the empty token, and one with the
    empty user record and the empty token, both set the flag. *)
Lemma login_empty_token_accepted :
  isAuthenticated (login john "" fresh) = JBool true
  ∧ token (login john "" fresh) = JStr ""
  ∧ isAuthenticated (login ∅ "" fresh) = JBool true
  ∧ user (login ∅ "" fresh) = JObj ∅.
Proof. repeat split; reflexivity. Qed.

(** C4, amended. [login] validates nothing: whatever the user record and
    the token, empty ones included, it sets [user], [token] and
    [isAuthenticated = true] and persists the two. *)
Theorem login_sets_session_unconditionally (u : User) (t : string) (w : Store) :
  user (login u t w) = JObj u
  ∧ token (login u t w) = JStr t
  ∧ isAuthenticated (login u t w) = JBool true
  ∧ localStorage (login u t w) !! name
    = Some (JSON.stringify
              (JObj {[ "state" := JObj {[ "token" := JStr t; "user" := JObj u ]};
                       "version" := JNum 0 0 ]})).
Proof.
  destruct (login_fields u t w) as (Hu & Ht & Ha).
  split; [done|]. split; [done|]. split; [done|].
  unfold login at 1. rewrite localStorage_set lookup_insert_eq.
  unfold envelope, partialize. fold (login u t w).
  unfold user, token in Hu, Ht. by rewrite Hu Ht.
Qed.

(** C5. [updateUser(p)] without a user changes nothing at all; with a user
    it replaces the record by the merge of [p] into it, in which the
    fields that [p] does not set keep their values and the fields that [p]
    sets take its values; in both cases [token] and [isAuthenticated] are
    as before. *)
Theorem updateUser_merges_and_frames (p : User) (w : Store) :
  (present (user w) = false → updateUser p w = w)
  ∧ (∀ u : User, user w = JObj u →
       ∃ u' : User,
         user (updateUser p w) = JObj u'
         ∧ (∀ k, p !! k = None → u' !! k = u !! k)
         ∧ (∀ k v, p !! k = Some v → u' !! k = Some v))
  ∧ token (updateUser p w) = token w
  ∧ isAuthenticated (updateUser p w) = isAuthenticated w.
Proof.
  split; [|split].
  - unfold updateUser, user. by destruct (get (state w) "user").
  - intros u Hu. exists (p ∪ u). unfold updateUser. unfold user in Hu.
    rewrite Hu. simpl. split; [|split].
    + unfold user. rewrite get_set. reflexivity.
    + intros k Hk. rewrite lookup_union Hk. by destruct (u !! k).
    + intros k v Hk. rewrite lookup_union Hk. by destruct (u !! k).
  - destruct (updateUser_keeps p w) as (Ht & Ha & _). done.
Qed.

(** C5 at concrete inputs: no user, and [john] renamed. *)
Lemma updateUser_merges_and_frames_witness :
  updateUser {[ "name" := JStr "Johnny" ]} fresh = fresh
  ∧ (∃ u' : User,
       user (updateUser {[ "name" := JStr "Johnny" ]} logged_in) = JObj u'
       ∧ u' !! "email" = Some (JStr "john@example.com")
       ∧ u' !! "name" = Some (JStr "Johnny"))
  ∧ token (updateUser {[ "name" := JStr "Johnny" ]} logged_in) = JStr "tok"
  ∧ isAuthenticated (updateUser {[ "name" := JStr "Johnny" ]} logged_in)
    = JBool true.
Proof.
  split; [|split].
  - apply (updateUser_merges_and_frames {[ "name" := JStr "Johnny" ]} fresh).
    reflexivity.
  - destruct (updateUser_merges_and_frames {[ "name" := JStr "Johnny" ]} logged_in)
      as (_ & H & _).
    destruct (H john) as (u' & Hu & Hkeep & Hset); [reflexivity|].
    exists u'. split; [exact Hu|]. split.
    + rewrite (Hkeep "email"); reflexivity.
    + apply Hset. reflexivity.
  - destruct (updateUser_merges_and_frames {[ "name" := JStr "Johnny" ]} logged_in)
      as (_ & _ & Ht & Ha).
    rewrite Ht Ha. split; reflexivity.
Defined.







End SessionStore.

(* ===================================================================== *)
(** * Properties of the route guard and of the route table *)
(* ===================================================================== *)

Section RouteGuard.
Import JS authSlice router AppRouter Samples.
#[local] Open Scope list_scope.

Lemma ranked_eq : rankRouteBranches (flattenRoutes routes) = ranked.
Proof. vm_compute. reflexivity. Qed.

Lemma declared_branches_eq : declared_branches = take 6 ranked.
Proof. vm_compute. reflexivity. Qed.

Lemma matchMetas_elements (metas : list (RouteMeta element)) (m p : string)
    (els : list element) :
  matchMetas element metas m p = Some els → els = map route_element metas.
Proof.
  revert m els. induction metas as [|meta metas IH]; intros m els; simpl.
  - by intros [= <-].
  - destruct (matchPath _ _ _) as [base|]; [|done].
    destruct (matchMetas _ _ _ _) as [els'|] eqn:E; [|done].
    intros [= <-]. f_equal. by eapply IH.
Qed.

Lemma first_match_None (b : RouteBranch element) bs p :
  matchRouteBranch b p = None → first_match (b :: bs) p = first_match bs p.
Proof. intros H. simpl. by rewrite H. Qed.

Lemma first_match_elements (bs : list (RouteBranch element)) p els :
  first_match bs p = Some els → els ∈ map elements_of bs.
Proof.
  induction bs as [|b bs IH]; simpl; [done|].
  destruct (matchRouteBranch b p) as [els'|] eqn:E.
  - intros [= <-]. apply matchMetas_elements in E. subst. left.
  - intros H. right. by apply IH.
Qed.

Lemma matchRoutes_elements p els :
  matchRoutes routes p = Some els → els ∈ map elements_of ranked.
Proof. unfold matchRoutes. rewrite ranked_eq. apply first_match_elements. Qed.

(** The matches of the paths that the table redirects to. *)
Lemma match_login : matchRoutes routes "/login" = Some [EPublicRoute (Lazy Login)].
Proof. vm_compute. reflexivity. Qed.

Lemma match_dashboard :
  matchRoutes routes "/dashboard" = Some [EProtectedRoute Layout; Lazy Dashboard].
Proof. vm_compute. reflexivity. Qed.

Lemma match_root :
  matchRoutes routes "/" = Some [EProtectedRoute Layout; Navigate "/dashboard"].
Proof. vm_compute. reflexivity. Qed.

Lemma render_lazy_events pg loaded :
  render_lazy pg loaded = ([Mount pg], loaded) ∧ pg ∈ loaded
  ∨ render_lazy pg loaded = ([LoadChunk pg; Mount pg], pg :: loaded) ∧ pg ∉ loaded.
Proof.
  unfold render_lazy. case_bool_decide; [left|right]; done.
Qed.

Lemma requested_render_lazy pg loaded : requested (render_lazy pg loaded).1 = None.
Proof. by destruct (render_lazy_events pg loaded) as [[-> _]|[-> _]]. Qed.


(** A render pass asks for another location in three cases only: the
    login route with a session, a route under the layout without one, and
    the index route with one. Nothing is loaded in any of them. *)
Lemma redirecting_pass st p loaded to :
  requested (render_location st p loaded).1 = Some to →
  (matchRoutes routes p = Some [EPublicRoute (Lazy Login)]
   ∧ truthy (select_isAuthenticated st) = true ∧ to = "/dashboard"
   ∧ render_location st p loaded = ([NavigateTo to], loaded))
  ∨ ((∃ rest, matchRoutes routes p = Some (EProtectedRoute Layout :: rest)
              ∧ Login ∉ flat_map pages_of rest)
     ∧ truthy (select_isAuthenticated st) = false ∧ to = "/login"
     ∧ render_location st p loaded = ([NavigateTo to], loaded))
  ∨ (matchRoutes routes p = Some [EProtectedRoute Layout; Navigate "/dashboard"]
     ∧ truthy (select_isAuthenticated st) = true ∧ to = "/dashboard"
     ∧ render_location st p loaded = ([MountLayout; NavigateTo to], loaded)).
Proof.
  unfold render_location.
  destruct (matchRoutes routes p) as [els|] eqn:E; [|done].
  pose proof (matchRoutes_elements _ _ E) as Hin.
  repeat (apply elem_of_cons in Hin as [->|Hin]); [..|by apply elem_of_nil in Hin];
    simpl; unfold ProtectedRoute, PublicRoute, render_Layout;
    destruct (truthy (select_isAuthenticated st)); simpl;
    rewrite ?requested_render_lazy; try done.
  all: try (match goal with
            | |- context [render_lazy ?pg ?l] =>
                by destruct (render_lazy_events pg l) as [[-> _]|[-> _]]
            end).
  all: intros [= <-];
    first [ by left
          | by right; right
          | right; left; (split; [|done]); eexists; (split; [done|]);
            simpl; set_solver ].
Qed.

Lemma land_login st loaded hops :
  truthy (select_isAuthenticated st) = false →
  navigate (S hops) st "/login" loaded
  = Some {| location := "/login";
            trace := (render_lazy Login loaded).1;
            chunks := (render_lazy Login loaded).2 |}.
Proof.
  intros H. simpl. unfold render_location. rewrite match_login. simpl.
  unfold PublicRoute. rewrite H.
  by destruct (render_lazy_events Login loaded) as [[-> _]|[-> _]].
Qed.

Lemma land_dashboard st loaded hops :
  truthy (select_isAuthenticated st) = true →
  navigate (S hops) st "/dashboard" loaded
  = Some {| location := "/dashboard";
            trace := MountLayout :: (render_lazy Dashboard loaded).1;
            chunks := (render_lazy Dashboard loaded).2 |}.
Proof.
  intros H. simpl. unfold render_location. rewrite match_dashboard. simpl.
  unfold ProtectedRoute, render_Layout. rewrite H. simpl.
  by destruct (render_lazy_events Dashboard loaded) as [[-> _]|[-> _]].
Qed.

Lemma navigate_redirected st p loaded evs to hops :
  render_location st p loaded = (evs, loaded) → requested evs = Some to →
  navigate (S hops) st p loaded
  = match navigate hops st to loaded with
    | None => None
    | Some o => Some {| location := location o; trace := evs ++ trace o;
                        chunks := chunks o |}
    end.
Proof. intros Hr Hq. simpl. by rewrite Hr Hq. Qed.

Lemma render_lazy_only pg pg' loaded :
  pg ≠ pg' →
  (LoadChunk pg ∉ (render_lazy pg' loaded).1)
  ∧ (Mount pg ∉ (render_lazy pg' loaded).1).
Proof.
  intros Hne.
  destruct (render_lazy_events pg' loaded) as [[-> _]|[-> _]]; simpl;
    split; set_solver.
Qed.

(** C7. Whenever the render pass of a navigation asks for another location
    (a guard redirects, or the index route does), that pass has invoked no
    loader and has left the loaded chunks as they were; the navigation
    ends at the redirect's target, and no page of the routes first matched
    is loaded or mounted on the way. *)
Theorem redirect_never_loads_target st p loaded to :
  requested (render_location st p loaded).1 = Some to →
  (∀ pg, LoadChunk pg ∉ (render_location st p loaded).1)
  ∧ (render_location st p loaded).2 = loaded
  ∧ ∀ hops, ∃ o,
      navigate (S (S hops)) st p loaded = Some o
      ∧ location o = to
      ∧ ∀ pg, pg ∈ target_pages p →
             (LoadChunk pg ∉ trace o) ∧ (Mount pg ∉ trace o).
Proof.
  intros Hq.
  destruct (redirecting_pass _ _ _ _ Hq)
    as [(Hm & Ha & -> & Hr)|[((rest & Hm & Hrest) & Ha & -> & Hr)|(Hm & Ha & -> & Hr)]];
    (split; [rewrite Hr; simpl; set_solver|]); (split; [by rewrite Hr|]);
    intros hops; unfold target_pages; rewrite Hm;
    erewrite navigate_redirected by (first [exact Hr|done]).
  - rewrite land_dashboard //. eexists. split; [done|]. split; [done|].
    intros pg ->%list_elem_of_singleton. simpl.
    destruct (render_lazy_only Login Dashboard loaded) as [H1 H2]; [done|].
    set_solver.
  - rewrite land_login //. eexists. split; [done|]. split; [done|].
    intros pg Hpg. simpl.
    destruct (render_lazy_only pg Login loaded) as [H1 H2]; [set_solver|].
    set_solver.
  - rewrite land_dashboard //. eexists. split; [done|]. split; [done|].
    intros pg Hpg. set_solver.
Qed.

(** C7 at the scenario of the specification: no session, and a protected
    path. *)
Lemma redirect_never_loads_target_witness :
  requested (render_location initial "/dashboard" []).1 = Some "/login"
  ∧ (∀ pg, LoadChunk pg ∉ (render_location initial "/dashboard" []).1)
  ∧ target_pages "/dashboard" = [Dashboard]
  ∧ ∃ o, navigate 2 initial "/dashboard" [] = Some o
         ∧ location o = "/login"
         ∧ (LoadChunk Dashboard ∉ trace o) ∧ (Mount Dashboard ∉ trace o).
Proof.
  assert (Hq : requested (render_location initial "/dashboard" []).1
               = Some "/login") by (vm_compute; reflexivity).
  destruct (redirect_never_loads_target initial "/dashboard" [] "/login" Hq)
    as (Hload & _ & Hnav).
  split; [exact Hq|]. split; [exact Hload|].
  split; [vm_compute; reflexivity|].
  destruct (Hnav 0%nat) as (o & Ho & Hl & Hp).
  exists o. split; [exact Ho|]. split; [exact Hl|].
  apply Hp. vm_compute. left.
Defined.

Lemma substring_all (s : string) : substring 0 (String.length s) s = s.
Proof. induction s as [|c s IH]; simpl; [done|]. by rewrite IH. Qed.

Lemma has_line_terminator_tail c s :
  has_line_terminator (String c s) = false → has_line_terminator s = false.
Proof.
  simpl. intros H. apply orb_false_iff in H as [_ H]. exact H.
Qed.

Lemma substring_0_0 (s : string) : substring 0 0 s = EmptyString.
Proof. by destruct s. Qed.

(** The pattern ["*"] matches every pathname. *)
Lemma matchPath_splat (e : bool) p :
  is_pathname p = true → matchPath "*" e p = Some "/".
Proof.
  intros Hp. unfold is_pathname in Hp. apply andb_prop in Hp as [Hs Hl].
  apply negb_true_iff in Hl.
  destruct p as [|c p]; [done|]. simpl in Hs.
  apply Ascii.eqb_eq in Hs as ->.
  apply has_line_terminator_tail in Hl.
  unfold matchPath. cbv zeta.
  change (pattern_literal "*") with "/".
  cbn [String.length substring Nat.sub].

  rewrite substring_0_0 ?Nat.sub_0_r substring_all Hl.
  reflexivity.
Qed.

Lemma splat_matches (b : RouteBranch element) p :
  routesMeta b = [mkMeta element "*" 2 (Lazy NotFound)] →
  is_pathname p = true →
  matchRouteBranch b p = Some [Lazy NotFound].
Proof.
  intros Hb Hp. unfold matchRouteBranch. rewrite Hb.
  cbn [matchMetas relativePath route_element]. 
  change ("/" =? "/")%string with true. cbv iota.
  by rewrite matchPath_splat.
Qed.

Lemma not_declared p :
  declared p = false →
  Forall (fun b => matchRouteBranch b p = None) (take 6 ranked).
Proof.
  unfold declared. rewrite declared_branches_eq. intros H.
  apply Forall_forall. intros b Hb.
  destruct (matchRouteBranch b p) as [els|] eqn:E; [|done].
  assert (existsb (fun b => bool_decide (is_Some (matchRouteBranch b p)))
            (take 6 ranked) = true) as Ht; [|congruence].
  apply existsb_exists. exists b. split; [by apply list_elem_of_In|].
  apply bool_decide_eq_true. rewrite E. by eexists.
Qed.

Lemma undeclared_match p :
  is_pathname p = true → declared p = false →
  matchRoutes routes p = Some [Lazy NotFound].
Proof.
  intros Hp Hd. apply not_declared in Hd.
  unfold matchRoutes. rewrite ranked_eq.
  unfold ranked in *. simpl take in Hd.
  repeat (apply Forall_cons in Hd as [H Hd]; rewrite (first_match_None _ _ _ H);
          clear H).
  simpl first_match. rewrite (splat_matches _ p); done.
Qed.




(** C10. The root path mounts no page of its own. With a session the
    guard allows it, the layout mounts and the index route redirects to
    [/dashboard]; without one the guard redirects to [/login]. *)
Theorem root_path_redirects st loaded hops :
  (select_isAuthenticated st = JBool true →
     ProtectedRoute st = ALLOW
     ∧ render_location st "/" loaded = ([MountLayout; NavigateTo "/dashboard"], loaded)
     ∧ ∃ o, navigate (S (S hops)) st "/" loaded = Some o
            ∧ location o = "/dashboard")
  ∧ (select_isAuthenticated st = JBool false →
       render_location st "/" loaded = ([NavigateTo "/login"], loaded)
       ∧ ∃ o, navigate (S (S hops)) st "/" loaded = Some o
              ∧ location o = "/login").
Proof.
  split; intros Ha.
  - assert (Hr : render_location st "/" loaded
                 = ([MountLayout; NavigateTo "/dashboard"], loaded)).
    { unfold render_location. rewrite match_root. simpl.
      unfold ProtectedRoute. by rewrite Ha. }
    split; [unfold ProtectedRoute; by rewrite Ha|]. split; [done|].
    erewrite navigate_redirected by (first [exact Hr|done]).
    rewrite land_dashboard; [by rewrite Ha|]. by eexists.
  - assert (Hr : render_location st "/" loaded = ([NavigateTo "/login"], loaded)).
    { unfold render_location. rewrite match_root. simpl.
      unfold ProtectedRoute. by rewrite Ha. }
    split; [done|].
    erewrite navigate_redirected by (first [exact Hr|done]).
    rewrite land_login; [by rewrite Ha|]. by eexists.
Qed.

(** C10 at the session of a login and at the initial state. *)
Lemma root_path_redirects_witness :
  select_isAuthenticated authenticated = JBool true
  ∧ select_isAuthenticated initial = JBool false
  ∧ render_location authenticated "/" []
    = ([MountLayout; NavigateTo "/dashboard"], [])
  ∧ render_location initial "/" [] = ([NavigateTo "/login"], []).
Proof.
  split; [reflexivity|]. split; [reflexivity|]. split.
  - apply (root_path_redirects authenticated [] 0). reflexivity.
  - apply (root_path_redirects initial [] 0). reflexivity.
Defined.

(** C3. The decision of the route guard: a protected screen redirects to
    the login path without a session and is allowed with one; a public
    screen redirects to the home path with a session and is allowed
    without one. The two targets are the constants [/login] and
    [/dashboard]: a redirect of a guard goes nowhere else. *)
Theorem route_guard_decision_table (st : AuthState) :
  (select_isAuthenticated st = JBool false →
     decide PROTECTED st = REDIRECT_TO_LOGIN ∧ decide PUBLIC st = ALLOW)
  ∧ (select_isAuthenticated st = JBool true →
       decide PROTECTED st = ALLOW ∧ decide PUBLIC st = REDIRECT_TO_HOME)
  ∧ REDIRECT_TO_LOGIN = Redirect "/login"
  ∧ REDIRECT_TO_HOME = Redirect "/dashboard"
  ∧ (∀ v to, decide v st = Redirect to →
       v = PROTECTED ∧ to = "/login" ∨ v = PUBLIC ∧ to = "/dashboard").
Proof.
  unfold decide, ProtectedRoute, PublicRoute.
  split; [by intros ->|]. split; [by intros ->|]. split; [done|]. split; [done|].
  intros [] to; destruct (truthy (select_isAuthenticated st)); simpl;
    intros [= <-]; auto.
Qed.

(** C3 at the initial state and at the session of a login. *)
Lemma route_guard_decision_table_witness :
  (decide PROTECTED initial = Redirect "/login" ∧ decide PUBLIC initial = Children)
  ∧ (decide PROTECTED authenticated = Children
     ∧ decide PUBLIC authenticated = Redirect "/dashboard").
Proof.
  split.
  - apply (route_guard_decision_table initial). reflexivity.
  - apply (route_guard_decision_table authenticated). reflexivity.
Defined.
End RouteGuard.

(* ===================================================================== *)
(** * Properties of the error boundary *)
(* ===================================================================== *)

Section Boundary.
Import ErrorBoundary Samples.
#[local] Open Scope list_scope.

(** The two buttons of the failure screen. *)
Lemma failure_screen_buttons dev props s :
  hasError s = true → truthy (fallback props) = false →
  ∃ heading text details,
    render dev props s
    = FailureScreen heading text details
        [ {| label := "Refresh Page"; onClick := handleReload |};
          {| label := "Try Again"; onClick := handleReset |} ].
Proof.
  intros He Hf. unfold render. rewrite He Hf. by do 3 eexists.
Qed.

(** C9, as stated, fails: the fallback [0] is supplied, and React would
    render it as the text 0, yet the boundary shows its own failure
    screen. *)
Lemma fallback_zero_not_rendered :
  render false {| children := app; fallback := NNum 0 |}
         (getDerivedStateFromError boom)
  = FailureScreen
      "Oops! Something went wrong"
      "We're sorry, but something unexpected happened. Please try refreshing the page."
      None
      [ {| label := "Refresh Page"; onClick := handleReload |};
        {| label := "Try Again"; onClick := handleReset |} ].
Proof. reflexivity. Qed.

(** C9, amended. Without a captured error the boundary renders its
    children. With one it renders the fallback when the fallback is
    truthy, and otherwise (no fallback, or [null], [false], [0] or the
    empty string) the failure screen, whose actions are exactly the
    reload button and the retry button. The retry only clears the
    captured error, after which the boundary renders its children again;
    the reload only reloads the page. *)
Theorem error_boundary_render (dev : bool) (props : Props) (s : State) :
  (hasError s = false → render dev props s = Node (children props))
  ∧ (hasError s = true → truthy (fallback props) = true →
       render dev props s = Node (fallback props))
  ∧ (hasError s = true → truthy (fallback props) = false →
       ∃ heading text details,
         render dev props s
         = FailureScreen heading text details
             [ {| label := "Refresh Page"; onClick := handleReload |};
               {| label := "Try Again"; onClick := handleReset |} ])
  ∧ handleReset s = ({| hasError := false; error := None |}, [])
  ∧ render dev props (handleReset s).1 = Node (children props)
  ∧ handleReload s = (s, [Reload]).
Proof.
  split; [|split; [|split]].
  - intros He. unfold render. by rewrite He.
  - intros He Hf. unfold render. by rewrite He Hf.
  - apply failure_screen_buttons.
  - done.
Qed.

(** C9 at the boundary of the application, before and after an error, and
    with a fallback element. *)
Lemma error_boundary_render_witness :
  render false {| children := app; fallback := NUndefined |} initial = Node app
  ∧ render false {| children := app; fallback := NElement "Sorry" |}
           (getDerivedStateFromError boom)
    = Node (NElement "Sorry")
  ∧ (∃ heading text details,
       render false {| children := app; fallback := NUndefined |}
              (getDerivedStateFromError boom)
       = FailureScreen heading text details
           [ {| label := "Refresh Page"; onClick := handleReload |};
             {| label := "Try Again"; onClick := handleReset |} ])
  ∧ handleReset (getDerivedStateFromError boom) = (initial, []).
Proof.
  destruct (error_boundary_render false
              {| children := app; fallback := NUndefined |} initial)
    as (Hchildren & _).
  destruct (error_boundary_render false
              {| children := app; fallback := NElement "Sorry" |}
              (getDerivedStateFromError boom))
    as (_ & Hfallback & _).
  destruct (error_boundary_render false
              {| children := app; fallback := NUndefined |}
              (getDerivedStateFromError boom))
    as (_ & _ & Hscreen & Hreset & _).
  split; [apply Hchildren; reflexivity|].
  split; [apply Hfallback; reflexivity|].
  split; [apply Hscreen; reflexivity|].
  exact Hreset.
Defined.

End Boundary.

(* ===================================================================== *)
(** * Further properties of the session store *)
(* ===================================================================== *)

Section SessionStoreAlgebra.
Import JS authSlice Samples.
#[local] Open Scope list_scope.

(** A [set] over a [set] of the same properties overwrites it. *)
Lemma set_set (p q : object) (w : Store) :
  dom q ⊆ dom p → set p (set q w) = set p w.
Proof.
  intros Hd. unfold set; simpl.
  assert (Hs : spread2 (spread2 (state w) q) p = spread2 (state w) p).
  { unfold spread2. apply map_eq. intros k. rewrite !lookup_union.
    destruct (p !! k) as [v|] eqn:Hp; [by destruct (q !! k), (state w !! k)|].
    assert (q !! k = None) as ->; [|by destruct (state w !! k)].
    apply not_elem_of_dom. apply not_elem_of_dom in Hp. set_solver. }
  rewrite Hs. f_equal. unfold setItem. by rewrite insert_insert_eq.
Qed.

Lemma get_user_logout (w : Store) : get (state (logout w)) "user" = JNull.
Proof. by destruct (logout_fields w) as (H & _). Qed.

(** X1. [logout] is idempotent on the whole store, storage included. *)
Theorem logout_idempotent (w : Store) : logout (logout w) = logout w.
Proof. unfold logout. apply set_set. set_solver. Qed.

(** X2. Of two consecutive logins or logouts the last one decides the
    store, and an [updateUser] after a logout does nothing. *)
Theorem last_session_action_wins (u u' : User) (t t' : string) (p : User)
    (w : Store) :
  login u t (login u' t' w) = login u t w
  ∧ login u t (logout w) = login u t w
  ∧ logout (login u t w) = logout w
  ∧ updateUser p (logout w) = logout w.
Proof.
  repeat split; try (unfold login, logout; apply set_set;
                     rewrite !dom_insert_L; set_solver).
  unfold updateUser. by rewrite get_user_logout.
Qed.

(** X3. Two profile updates in a row are the update by their merge, in
    which the later one wins. *)
Theorem updateUser_compose (p q : User) (w : Store) :
  updateUser q (updateUser p w) = updateUser (spread2 p q) w.
Proof.
  unfold updateUser at 2 3.
  destruct (truthy (get (state w) "user")) eqn:Hu.
  - unfold updateUser. rewrite get_set lookup_singleton_eq. simpl.
    rewrite set_set; [set_solver|].
    unfold spread2. by rewrite (assoc_L (∪)).
  - unfold updateUser. by rewrite Hu.
Qed.

(** X4. The store writes its own item of [localStorage] and no other. *)
Theorem other_items_untouched (w : Store) (o : op) (k : string) :
  k ≠ name → localStorage (step w o) !! k = localStorage w !! k.
Proof.
  intros Hk. destruct o as [u t| |p|]; unfold step, login, logout, updateUser.
  - rewrite localStorage_set. by rewrite lookup_insert_ne.
  - rewrite localStorage_set. by rewrite lookup_insert_ne.
  - destruct (truthy _); [|done].
    rewrite localStorage_set. by rewrite lookup_insert_ne.
  - done.
Qed.

(** [other_items_untouched] at concrete inputs. *)
Lemma other_items_untouched_witness :
  localStorage (step {| state := initial; localStorage := {[ "theme" := "dark" ]} |}
                     (Login john "tok")) !! "theme"
  = Some "dark".
Proof.
  rewrite (other_items_untouched _ (Login john "tok") "theme"); [done|].
  reflexivity.
Defined.

Lemma in_sync_step (w : Store) (o : op) :
  is_restart o = false →
  localStorage w !! name = Some (JSON.stringify (envelope (state w))) →
  localStorage (step w o) !! name
  = Some (JSON.stringify (envelope (state (step w o)))).
Proof.
  intros Ho Hw. destruct o as [u t| |p|]; unfold step, login, logout, updateUser;
    try discriminate; try (by rewrite localStorage_set lookup_insert_eq).
  destruct (truthy _); [|done]. by rewrite localStorage_set lookup_insert_eq.
Qed.

Lemma in_sync_steps (ops : list op) (w : Store) :
  forallb (fun o => negb (is_restart o)) ops = true →
  localStorage w !! name = Some (JSON.stringify (envelope (state w))) →
  localStorage (foldl step w ops) !! name
  = Some (JSON.stringify (envelope (state (foldl step w ops)))).
Proof.
  revert w. induction ops as [|o ops IH]; intros w Hops Hw; [done|].
  simpl in Hops. apply andb_prop in Hops as [Ho Hops].
  cbn [foldl]. apply IH; [done|]. apply in_sync_step; [|done].
  by destruct (is_restart o).
Qed.

(** X5. From the first login or logout on, and until the next restart,
    the stored text is the envelope of the state in memory after every
    action. *)
Theorem storage_follows_memory (w : Store) (ops : list op) :
  forallb (fun o => negb (is_restart o)) ops = true →
  (∀ u t,
     localStorage (foldl step (login u t w) ops) !! name
     = Some (JSON.stringify (envelope (state (foldl step (login u t w) ops)))))
  ∧ localStorage (foldl step (logout w) ops) !! name
    = Some (JSON.stringify (envelope (state (foldl step (logout w) ops)))).
Proof.
  intros Hops. split; [intros u t|]; apply in_sync_steps; try done.
  - unfold login. by rewrite localStorage_set lookup_insert_eq.
  - unfold logout. by rewrite localStorage_set lookup_insert_eq.
Qed.

(** [storage_follows_memory] at concrete inputs. *)
Lemma storage_follows_memory_witness :
  localStorage (foldl step (logout fresh)
                  [Login john "tok"; UpdateUser {[ "name" := JStr "Johnny" ]}])
    !! name
  = Some (JSON.stringify
            (envelope (state (foldl step (logout fresh)
                                [Login john "tok";
                                 UpdateUser {[ "name" := JStr "Johnny" ]}])))).
Proof.
  apply (storage_follows_memory fresh
           [Login john "tok"; UpdateUser {[ "name" := JStr "Johnny" ]}]).
  reflexivity.
Defined.

(** X6. No property other than [token] and [user] reaches the storage:
    two updates that differ in another property, [isAuthenticated]
    included, write the same text. *)
Theorem only_token_and_user_are_stored (partial : object) (k : string)
    (v : jsval) (w : Store) :
  k ≠ "token" → k ≠ "user" →
  localStorage (set (<[k := v]> partial) w) = localStorage (set partial w).
Proof.
  intros Ht Hu. rewrite !localStorage_set. f_equal. f_equal.
  apply envelope_only_token_user; rewrite !get_set;
    by rewrite lookup_insert_ne.
Qed.

(** [only_token_and_user_are_stored] at concrete inputs. *)
Lemma only_token_and_user_are_stored_witness :
  localStorage (set {[ "isAuthenticated" := JBool true; "token" := JStr "tok" ]} fresh)
  = localStorage (set {[ "token" := JStr "tok" ]} fresh).
Proof.
  apply (only_token_and_user_are_stored {[ "token" := JStr "tok" ]}
           "isAuthenticated" (JBool true) fresh); done.
Defined.

(** X7. A restart after a logout boots into the initial, logged-out
    state, whatever the session was. *)
Theorem restart_after_logout (w : Store) :
  state (restart (logout w)) = initial.
Proof.
  unfold restart, useAuthStore, hydrate, getItem. cbn [state].
  assert (Hls : localStorage (logout w) !! name
                = Some (JSON.stringify (envelope (state (logout w)))))
    by (unfold logout; by rewrite localStorage_set lookup_insert_eq).
  rewrite Hls (envelope_only_token_user _ initial).
  - destruct (logout_fields w) as (_ & H & _). exact H.
  - destruct (logout_fields w) as (H & _ & _). exact H.
  - vm_compute. reflexivity.
Qed.

End SessionStoreAlgebra.

(* ===================================================================== *)
(** * Properties of the form machine *)
(* ===================================================================== *)

Section FormMachine.
Import JS formMachine.
#[local] Open Scope list_scope.
#[local] Open Scope Z_scope.

Variable validateFn : object → settled object.
Variable submitFn : object → settled jsval.

Lemma settle_at_rest (s : State) :
  at_rest s → settle validateFn submitFn s = (s, []).
Proof. destruct s as [[] ctx]; by intros [H|H]. Qed.

Lemma size_positive (m : object) : (0 <? size m)%nat = negb (bool_decide (m = ∅)).
Proof.
  case_bool_decide as H; simpl.
  - subst. by rewrite map_size_empty.
  - apply Nat.ltb_lt. destruct (size m) eqn:E; [|lia].
    by apply map_size_empty_iff in E.
Qed.

(** X9. What the machine ignores: every event of the form while a service
    is in flight (no second submission, no edit), every event but [RESET]
    in [success], [RESET] in [idle], and [SUCCESS] and [ERROR] in every
    state. *)
Theorem ignored_events (s : State) :
  (value s = validating ∨ value s = submitting →
     ∀ e, transition s (Sent e) = s)
  ∧ (value s = success → ∀ e, e ≠ RESET → transition s (Sent e) = s)
  ∧ (value s = idle → transition s (Sent RESET) = s)
  ∧ transition s (Sent SUCCESS) = s
  ∧ (∀ errs, transition s (Sent (ERROR errs)) = s).
Proof.
  destruct s as [v ctx]. unfold transition. simpl.
  split; [intros [->| ->] e; by destruct e|].
  split; [intros -> e He; by destruct e|].
  split; [by intros ->|]. split; [by destruct v|]. intros errs. by destruct v.
Qed.

(** [ignored_events] at concrete inputs. *)
Lemma ignored_events_witness :
  transition {| value := validating; context := initialContext |}
             (Sent (SUBMIT {[ "email" := JStr "a@b.c" ]}))
  = {| value := validating; context := initialContext |}
  ∧ transition {| value := success; context := initialContext |}
               (Sent (VALIDATE "email" (JStr "a@b.c")))
    = {| value := success; context := initialContext |}
  ∧ transition initialState (Sent RESET) = initialState.
Proof.
  destruct (ignored_events {| value := validating; context := initialContext |})
    as (Hflight & _).
  destruct (ignored_events {| value := success; context := initialContext |})
    as (_ & Hsuccess & _).
  destruct (ignored_events initialState) as (_ & _ & Hidle & _).
  split; [apply Hflight; by left|].
  split; [apply Hsuccess; done|]. apply Hidle. done.
Defined.

Lemma send_submit (s : State) (d : object) :
  value s = idle →
  send validateFn submitFn (SUBMIT d) s
  = let ended v e :=
      {| value := v;
         context := {| data := d; errors := e;
                       submitCount := submitCount (context s) + 1 |} |} in
    match validateFn d with
    | Rejected r => (ended idle r, [Called validateForm d])
    | Resolved errs =>
        if bool_decide (errs = ∅) then
          match submitFn d with
          | Resolved _ => (ended success (JObj ∅),
                           [Called validateForm d; Called submitForm d])
          | Rejected r => (ended idle r,
                           [Called validateForm d; Called submitForm d])
          end
        else (ended idle (JObj errs), [Called validateForm d])
    end.
Proof.
  destruct s as [v ctx]. simpl. intros ->.
  unfold send, settle, settle1, transition, run_validateForm. simpl.
  destruct (validateFn d) as [errs|r]; simpl; [|done].
  rewrite size_positive. case_bool_decide; simpl; [|done].
  unfold run_submitForm. simpl. by destruct (submitFn d).
Qed.


(** An event other than a submission from [idle] calls neither function
    and keeps the counter, unless it resets it. *)
Lemma send_other (s : State) (e : FormEvent) :
  at_rest s → (value s = idle → is_submit e = false) →
  send validateFn submitFn e s = (transition s (Sent e), [])
  ∧ at_rest (transition s (Sent e))
  ∧ (value (transition s (Sent e)) = success → transition s (Sent e) = s)
  ∧ (submitCount (context (transition s (Sent e))) = submitCount (context s)
     ∨ submitCount (context (transition s (Sent e))) = 0).
Proof.
  intros Hs He. unfold send.
  assert (Hr : at_rest (transition s (Sent e))).
  { destruct s as [v ctx]. unfold at_rest, transition in *. simpl in *.
    destruct Hs as [-> | ->]; destruct e; simpl; auto.
    by specialize (He eq_refl). }
  split; [by apply settle_at_rest|]. split; [done|].
  destruct s as [v ctx]. unfold at_rest, transition in *. simpl in *.
  destruct Hs as [-> | ->]; destruct e; simpl; auto;
    try (by specialize (He eq_refl)); split; auto; done.
Qed.

(** What one event keeps: the machine at rest, the counter at least [0],
    at most one higher and raised only by a submission, and [success]
    only with no errors and at least one submission counted; and the
    submitted data passed the validation whenever [submitFn] is
    called. *)
Lemma send_keeps (s : State) (e : FormEvent) :
  at_rest s → 0 ≤ submitCount (context s) →
  (value s = success →
     errors (context s) = JObj ∅ ∧ 1 ≤ submitCount (context s)) →
  let r := send validateFn submitFn e s in
  at_rest r.1
  ∧ 0 ≤ submitCount (context r.1)
  ∧ submitCount (context r.1)
    ≤ submitCount (context s) + (if is_submit e then 1 else 0)
  ∧ (value r.1 = success →
       errors (context r.1) = JObj ∅ ∧ 1 ≤ submitCount (context r.1))
  ∧ (∀ d, Called submitForm d ∈ r.2 → validateFn d = Resolved ∅).
Proof.
  intros Hs H0 Hsucc r. subst r.
  assert (Hcases : (value s = idle ∧ is_submit e = true)
                   ∨ (value s = idle → is_submit e = false)).
  { destruct (is_submit e); [|by right].
    destruct Hs as [Hi|Hsu]; [by left|]. right. intros Hi. congruence. }
  destruct Hcases as [[Hi He]|He].
  - destruct e as [d| | | |]; try discriminate.
    rewrite (send_submit s d Hi). simpl.
    destruct (validateFn d) as [errs|rsn] eqn:Ev; simpl.
    + case_bool_decide as Hd; simpl.
      * subst errs. destruct (submitFn d); simpl;
          (split; [unfold at_rest; auto|]); (split; [lia|]); (split; [lia|]);
          (split; [intros; first [done|split; [done|lia]]|]);
          intros d' Hd'; apply elem_of_cons in Hd' as [Hd'|Hd']; try done;
          apply list_elem_of_singleton in Hd'; congruence.
      * (split; [unfold at_rest; auto|]); (split; [lia|]); (split; [lia|]).
        split; [done|]. intros d' Hd'.
        apply list_elem_of_singleton in Hd'. done.
    + (split; [unfold at_rest; auto|]); (split; [lia|]); (split; [lia|]).
      split; [done|]. intros d' Hd'.
      apply list_elem_of_singleton in Hd'. done.
  - destruct (send_other s e Hs He) as (-> & Hr & Hsame & Hc). simpl.
    split; [done|].
    split; [destruct Hc as [-> | ->]; lia|].
    split; [destruct Hc as [-> | ->]; destruct (is_submit e); lia|].
    split; [|intros d Hd; set_solver].
    intros Hv. specialize (Hsame Hv). rewrite Hsame in Hv |- *. by apply Hsucc.
Qed.

Lemma sendAll_keeps (es : list FormEvent) (s : State) :
  at_rest s → 0 ≤ submitCount (context s) →
  (value s = success →
     errors (context s) = JObj ∅ ∧ 1 ≤ submitCount (context s)) →
  let r := sendAll validateFn submitFn es s in
  0 ≤ submitCount (context r.1)
  ∧ submitCount (context r.1)
    ≤ submitCount (context s) + Z.of_nat (length (List.filter is_submit es))
  ∧ (value r.1 = success →
       errors (context r.1) = JObj ∅ ∧ 1 ≤ submitCount (context r.1))
  ∧ (∀ d, Called submitForm d ∈ r.2 → validateFn d = Resolved ∅).
Proof.
  revert s. induction es as [|e es' IH]; intros s Hs H0 Hsucc; simpl.
  - split; [done|]. split; [lia|]. split; [done|]. intros d Hd. set_solver.
  - destruct (send_keeps s e Hs H0 Hsucc) as (Hr1 & H01 & Hle1 & Hs1 & Hc1).
    destruct (send validateFn submitFn e s) as [s1 c1]. simpl in *.
    specialize (IH s1 Hr1 H01 Hs1) as (H02 & Hle2 & Hs2 & Hc2).
    destruct (sendAll validateFn submitFn es' s1) as [s2 c2]. simpl in *.
    split; [done|]. split.
    + destruct (is_submit e); simpl length; lia.
    + split; [done|]. intros d Hd. apply elem_of_app in Hd as [Hd|Hd]; auto.
Qed.


(** X12. Along every sequence of events from the initial state, the
    counter lies between [0] and the number of submissions sent, and the
    machine is in [success] only with no errors recorded and at least one
    submission counted. *)
Theorem submitCount_bounds (es : list FormEvent) :
  let s := (sendAll validateFn submitFn es initialState).1 in
  0 ≤ submitCount (context s)
  ∧ submitCount (context s)
    ≤ Z.of_nat (length (List.filter is_submit es))
  ∧ (value s = success →
       errors (context s) = JObj ∅ ∧ 1 ≤ submitCount (context s)).
Proof.
  destruct (sendAll_keeps es initialState) as (H0 & Hle & Hs & _);
    [by left|done|done|]. simpl in *. split; [done|]. split; [lia|done].
Qed.

(** X13. A submission that succeeds followed by [RESET] brings the machine
    back to its initial state, whatever had been edited, counted or
    recorded before. *)
Theorem submit_then_reset (s : State) (d : object) (v : jsval) :
  value s = idle → validateFn d = Resolved ∅ → submitFn d = Resolved v →
  sendAll validateFn submitFn [SUBMIT d; RESET] s
  = (initialState, [Called validateForm d; Called submitForm d]).
Proof.
  intros Hi Hv Hs. simpl. rewrite (send_submit s d Hi) Hv Hs. simpl.
  unfold send, settle, settle1, transition. simpl. reflexivity.
Qed.

(** X14. [VALIDATE] in [idle] only records the value of the field: it
    calls neither function, keeps the errors and the counter, two of them
    on different fields commute, and on the same field the later one
    wins. *)
Theorem validate_only_edits (s : State) (f g : string) (v u : jsval) :
  value s = idle →
  send validateFn submitFn (VALIDATE f v) s
  = ({| value := idle;
        context := {| data := <[f := v]> (data (context s));
                      errors := errors (context s);
                      submitCount := submitCount (context s) |} |}, [])
  ∧ (f ≠ g →
       sendAll validateFn submitFn [VALIDATE f v; VALIDATE g u] s
       = sendAll validateFn submitFn [VALIDATE g u; VALIDATE f v] s)
  ∧ (sendAll validateFn submitFn [VALIDATE f v; VALIDATE f u] s).1
    = (send validateFn submitFn (VALIDATE f u) s).1.
Proof.
  destruct s as [val ctx]. simpl. intros ->.
  unfold send, settle, settle1, transition. simpl.
  split; [done|]. split.
  - intros Hfg. by rewrite insert_insert_ne.
  - by rewrite insert_insert_eq.
Qed.

(** X30. While a service is pending the machine waits: a submission from
    [idle] leaves the machine in [validating] (the hook reports
    [isValidating]); in [validating] and in [submitting] any number of
    events of the form change nothing; and the state is left only by the
    done or the error event of its own service. *)
Theorem pending_service_freezes_machine (s : State) (d : object)
    (es : list FormEvent) :
  (value s = idle →
     value (transition s (Sent (SUBMIT d))) = validating
     ∧ matches (transition s (Sent (SUBMIT d))) validating = true
     ∧ foldl transition (transition s (Sent (SUBMIT d))) (map Sent es)
       = transition s (Sent (SUBMIT d)))
  ∧ (value s = validating ∨ value s = submitting →
       foldl transition s (map Sent es) = s)
  ∧ (value s = validating →
       ∀ ev, (∀ x, ev ≠ DoneInvoke validateForm x)
             → (∀ x, ev ≠ ErrorPlatform validateForm x)
             → transition s ev = s)
  ∧ (value s = submitting →
       ∀ ev, (∀ x, ev ≠ DoneInvoke submitForm x)
             → (∀ x, ev ≠ ErrorPlatform submitForm x)
             → transition s ev = s).
Proof.
  assert (Hfrozen : ∀ s0 : State, value s0 = validating ∨ value s0 = submitting →
                    foldl transition s0 (map Sent es) = s0).
  { intros s0 Hs0. induction es as [|e es' IH]; [done|]. simpl.
    assert (transition s0 (Sent e) = s0) as ->; [|done].
    destruct s0 as [v ctx]. simpl in Hs0. unfold transition. simpl.
    destruct Hs0 as [-> | ->]; by destruct e. }
  split; [|split; [|split]].
  - intros Hi. destruct s as [v ctx]. simpl in Hi. subst v.
    split; [done|]. split; [done|]. apply Hfrozen. by left.
  - apply Hfrozen.
  - intros Hv ev Hd He. destruct s as [v ctx]. simpl in Hv. subst v.
    unfold transition. simpl.
    destruct ev as [e|id x|id x];
      [by destruct e
      |destruct id; [by destruct (Hd x)|done]
      |destruct id; [by destruct (He x)|done]].
  - intros Hv ev Hd He. destruct s as [v ctx]. simpl in Hv. subst v.
    unfold transition. simpl.
    destruct ev as [e|id x|id x];
      [by destruct e
      |destruct id; [done|by destruct (Hd x)]
      |destruct id; [done|by destruct (He x)]].
Qed.
End FormMachine.

Section FormMachineExamples.
Import JS formMachine.
#[local] Open Scope list_scope.



(** [submit_then_reset] at concrete inputs. *)
Lemma submit_then_reset_witness :
  sendAll (fun _ => Resolved ∅) (fun _ => Resolved JNull)
    [SUBMIT {[ "email" := JStr "a@b.c" ]}; RESET]
    {| value := idle;
       context := {| data := {[ "email" := JStr "a@" ]};
                     errors := JObj {[ "email" := JStr "invalid" ]};
                     submitCount := 1 |} |}
  = (initialState,
     [Called validateForm {[ "email" := JStr "a@b.c" ]};
      Called submitForm {[ "email" := JStr "a@b.c" ]}]).
Proof.
  apply (submit_then_reset (fun _ => Resolved ∅) (fun _ => Resolved JNull)
           _ _ JNull); reflexivity.
Defined.

(** [validate_only_edits] at concrete inputs. *)
Lemma validate_only_edits_witness :
  send (fun _ => Resolved ∅) (fun _ => Resolved JNull)
       (VALIDATE "email" (JStr "a@b.c")) initialState
  = ({| value := idle;
        context := {| data := {[ "email" := JStr "a@b.c" ]};
                      errors := JObj ∅; submitCount := 0 |} |}, []).
Proof.
  destruct (validate_only_edits (fun _ => Resolved ∅) (fun _ => Resolved JNull)
              initialState "email" "name" (JStr "a@b.c") JNull eq_refl)
    as (H & _).
  exact H.
Defined.

(** [pending_service_freezes_machine] at concrete inputs. *)
Lemma pending_service_freezes_machine_witness :
  value (transition initialState (Sent (SUBMIT {[ "email" := JStr "a@b.c" ]})))
  = validating
  ∧ foldl transition {| value := submitting; context := initialContext |}
      (map Sent [RESET; SUBMIT ∅; VALIDATE "email" JNull])
    = {| value := submitting; context := initialContext |}.
Proof.
  destruct (pending_service_freezes_machine initialState
              {[ "email" := JStr "a@b.c" ]} [])
    as (Hsubmit & _).
  destruct (pending_service_freezes_machine
              {| value := submitting; context := initialContext |} ∅
              [RESET; SUBMIT ∅; VALIDATE "email" JNull])
    as (_ & Hfrozen & _).
  split; [apply Hsubmit; reflexivity|]. apply Hfrozen. by right.
Defined.
End FormMachineExamples.

(* ===================================================================== *)
(** * Further properties of the router *)
(* ===================================================================== *)

Section Navigation.
Import JS authSlice router AppRouter Sessions.
#[local] Open Scope list_scope.

Lemma render_Layout_lazy pg loaded :
  render_Layout (render_lazy pg) loaded
  = (MountLayout :: (render_lazy pg loaded).1, (render_lazy pg loaded).2).
Proof. unfold render_Layout. by destruct (render_lazy pg loaded). Qed.

(** What one render pass of the table can be. *)
Lemma pass_shapes st p loaded :
  let r := render_location st p loaded in
  r = ([], loaded)
  ∨ r = render_lazy NotFound loaded
  ∨ (truthy (select_isAuthenticated st) = false
     ∧ (r = render_lazy Login loaded ∨ r = ([NavigateTo "/login"], loaded)))
  ∨ (truthy (select_isAuthenticated st) = true
     ∧ (r = ([NavigateTo "/dashboard"], loaded)
        ∨ r = ([MountLayout; NavigateTo "/dashboard"], loaded)
        ∨ r = ([MountLayout], loaded)
        ∨ ∃ pg, (pg = Dashboard ∨ pg = Users ∨ pg = Settings)
                ∧ r = (MountLayout :: (render_lazy pg loaded).1,
                       (render_lazy pg loaded).2))).
Proof.
  unfold render_location.
  destruct (matchRoutes routes p) as [els|] eqn:E; [|by left].
  pose proof (matchRoutes_elements _ _ E) as Hin.
  repeat (apply elem_of_cons in Hin as [->|Hin]); [..|by apply elem_of_nil in Hin];
    simpl; unfold ProtectedRoute, PublicRoute;
    destruct (truthy (select_isAuthenticated st)); simpl;
    rewrite ?render_Layout_lazy;
    first
      [ by left
      | by right; left
      | by right; right; left; split; [done|left]
      | by right; right; left; split; [done|right]
      | by right; right; right; split; [done|left]
      | by right; right; right; split; [done|right; left]
      | by right; right; right; split; [done|right; right; left]
      | right; right; right; (split; [done|]); right; right; right;
        eexists; split; [|done]; auto ].
Qed.

Lemma navigate_unredirected st p loaded hops :
  requested (render_location st p loaded).1 = None →
  navigate (S hops) st p loaded
  = Some {| location := p;
            trace := (render_location st p loaded).1;
            chunks := (render_location st p loaded).2 |}.
Proof.
  intros H. simpl. destruct (render_location st p loaded) as [evs l'].
  simpl in H. by rewrite H.
Qed.

Lemma loads_app a b : loads (a ++ b) = loads a ++ loads b.
Proof.
  induction a as [|[] a IH]; simpl; by rewrite ?IH.
Qed.

Lemma elem_of_loads pg evs : pg ∈ loads evs ↔ LoadChunk pg ∈ evs.
Proof.
  induction evs as [|ev evs IH]; simpl; [set_solver|].
  destruct ev; rewrite ?elem_of_cons IH; naive_solver.
Qed.

Ltac lazy_cases :=
  repeat match goal with
         | |- context [render_lazy ?pg ?l] =>
             let H := fresh "Hin" in
             destruct (render_lazy_events pg l) as [[-> H]|[-> H]]
         end.

(** Where a navigation ends and what it did. *)
Lemma navigate_summary st p loaded hops :
  ∃ o, navigate (S (S hops)) st p loaded = Some o
    ∧ (location o = p
       ∨ location o = "/login" ∧ truthy (select_isAuthenticated st) = false
       ∨ location o = "/dashboard" ∧ truthy (select_isAuthenticated st) = true)
    ∧ (loads (trace o) = [] ∧ chunks o = loaded
       ∨ ∃ pg, (pg ∉ loaded) ∧ loads (trace o) = [pg] ∧ chunks o = pg :: loaded)
    ∧ (∀ pg, Mount pg ∈ trace o → pg ∈ chunks o)
    ∧ (truthy (select_isAuthenticated st) = false →
         (MountLayout ∉ trace o)
         ∧ ∀ pg, Mount pg ∈ trace o → pg = Login ∨ pg = NotFound)
    ∧ (truthy (select_isAuthenticated st) = true → Mount Login ∉ trace o).
Proof.
  destruct (requested (render_location st p loaded).1) as [to|] eqn:Hq.
  - destruct (redirecting_pass _ _ _ _ Hq)
      as [(_ & Ha & -> & Hr)|[(_ & Ha & -> & Hr)|(_ & Ha & -> & Hr)]];
      erewrite navigate_redirected by (first [exact Hr|done]);
      rewrite ?land_dashboard ?land_login //; eexists; (split; [done|]);
      simpl; rewrite Ha; lazy_cases; simpl;
      (split; [auto|]); (split; [eauto|]); (split; [set_solver|]);
      split; try done; intros _; set_solver.
  - rewrite navigate_unredirected //. eexists. split; [done|]. simpl.
    split; [auto|].
    destruct (pass_shapes st p loaded)
      as [Hr|[Hr|[[Ha [Hr|Hr]]|[Ha [Hr|[Hr|[Hr|(pg & Hpg & Hr)]]]]]]];
      rewrite Hr in Hq |- *; try discriminate; try rewrite Ha;
      lazy_cases; simpl;
      (split; [eauto|]); (split; [set_solver|]);
      split; try done; intros _; try set_solver.
    all: destruct Hpg as [->|[->| ->]]; set_solver.
Qed.

(** X15. Every navigation settles: for every session and pathname two
    render passes are enough, more passes change nothing, and the
    navigation ends at the requested pathname, at [/login] without a
    session or at [/dashboard] with one. The guards never redirect in a
    circle. *)
Theorem navigation_settles st p loaded hops :
  ∃ o, navigate 2 st p loaded = Some o
    ∧ navigate (S (S hops)) st p loaded = Some o
    ∧ (location o = p
       ∨ location o = "/login" ∧ truthy (select_isAuthenticated st) = false
       ∨ location o = "/dashboard" ∧ truthy (select_isAuthenticated st) = true).
Proof.
  destruct (navigate_summary st p loaded 0) as (o & Ho & Hl & _).
  exists o. split; [done|]. split; [|done].
  destruct (requested (render_location st p loaded).1) as [to|] eqn:Hq.
  - destruct (redirecting_pass _ _ _ _ Hq)
      as [(_ & Ha & -> & Hr)|[(_ & Ha & -> & Hr)|(_ & Ha & -> & Hr)]];
      erewrite navigate_redirected in Ho by (first [exact Hr|done]);
      erewrite navigate_redirected by (first [exact Hr|done]);
      rewrite ?land_dashboard ?land_login // in Ho;
      rewrite ?land_dashboard ?land_login //.
  - rewrite navigate_unredirected // in Ho. by rewrite navigate_unredirected.
Qed.

(** X16. What a session gates: without a session no navigation mounts the
    layout or any page other than [Login] and [NotFound]; with a session
    none mounts [Login]. *)
Theorem session_gates_pages st p loaded hops o :
  navigate (S (S hops)) st p loaded = Some o →
  (truthy (select_isAuthenticated st) = false →
     (MountLayout ∉ trace o)
     ∧ ∀ pg, Mount pg ∈ trace o → pg = Login ∨ pg = NotFound)
  ∧ (truthy (select_isAuthenticated st) = true → Mount Login ∉ trace o).
Proof.
  intros Ho. destruct (navigate_summary st p loaded hops)
    as (o' & Ho' & _ & _ & _ & Hun & Hau).
  rewrite Ho in Ho'. injection Ho' as <-. done.
Qed.

Lemma browse_loads visits loaded :
  NoDup (loads (browse visits loaded).1)
  ∧ (∀ pg, pg ∈ loads (browse visits loaded).1 → pg ∉ loaded)
  ∧ (∀ pg, pg ∈ (browse visits loaded).2
           ↔ pg ∈ loads (browse visits loaded).1 ∨ pg ∈ loaded).
Proof.
  revert loaded. induction visits as [|[st p] visits IH]; intros loaded;
    cbn [browse].
  - simpl. split; [constructor|]. split; [set_solver|]. set_solver.
  - destruct (navigate_summary st p loaded 0) as (o & Ho & _ & Hl & _).
    rewrite Ho. specialize (IH (chunks o)) as (Hnd & Hfresh & Hall).
    destruct (browse visits (chunks o)) as [evs l']. simpl in *.
    rewrite loads_app.
    destruct Hl as [[-> Hc]|(pg & Hpg & -> & Hc)]; rewrite Hc in Hfresh, Hall;
      simpl.
    + done.
    + split; [constructor; [|done]; intros Hin; apply Hfresh in Hin; set_solver|].
      split.
      * intros pg' [->|Hin]%elem_of_cons; [done|].
        apply Hfresh in Hin. set_solver.
      * intros pg'. rewrite Hall. set_solver.
Qed.

(** X17. Across any number of navigations, in whatever sessions, the
    loader of a page is invoked at most once, and never for a page whose
    chunk was loaded before; the chunks loaded at the end are the ones
    loaded before and the ones whose loader ran. *)
Theorem loaders_run_at_most_once visits loaded :
  NoDup (loads (browse visits loaded).1)
  ∧ (∀ pg, pg ∈ loaded → LoadChunk pg ∉ (browse visits loaded).1)
  ∧ (∀ pg, pg ∈ (browse visits loaded).2
           ↔ LoadChunk pg ∈ (browse visits loaded).1 ∨ pg ∈ loaded).
Proof.
  destruct (browse_loads visits loaded) as (Hnd & Hfresh & Hall).
  split; [done|]. split.
  - intros pg Hpg Hin. apply elem_of_loads in Hin. by apply Hfresh in Hin.
  - intros pg. by rewrite Hall elem_of_loads.
Qed.

Lemma first_match_prefix (pre post : list (RouteBranch element)) p :
  (∃ b, b ∈ pre ∧ is_Some (matchRouteBranch b p)) →
  ∃ els, first_match (pre ++ post) p = Some els ∧ els ∈ map elements_of pre.
Proof.
  induction pre as [|b pre IH]; intros (b' & Hb' & Hs); [set_solver|]. simpl.
  destruct (matchRouteBranch b p) as [els|] eqn:E.
  - exists els. split; [done|]. apply matchMetas_elements in E. subst. left.
  - apply elem_of_cons in Hb' as [->|Hb']; [rewrite E in Hs; by destruct Hs|].
    destruct IH as (els & H1 & H2); [eauto|]. exists els. split; [done|].
    by right.
Qed.

(** X18. For a pathname, the not-found page is what matches exactly when
    no declared route does: a declared route always takes precedence
    over the ["*"] route. *)
Theorem NotFound_iff_undeclared p :
  is_pathname p = true →
  (matchRoutes routes p = Some [Lazy NotFound] ↔ declared p = false).
Proof.
  intros Hp. split; [|by apply undeclared_match].
  intros Hm. destruct (declared p) eqn:Hd; [|done]. exfalso.
  unfold declared in Hd. rewrite declared_branches_eq in Hd.
  apply existsb_exists in Hd as (b & Hb & Hs).
  apply list_elem_of_In in Hb. apply bool_decide_eq_true in Hs.
  destruct (first_match_prefix (take 6 ranked) (drop 6 ranked) p)
    as (els & H1 & H2); [eauto|].
  rewrite take_drop in H1. unfold matchRoutes in Hm. rewrite ranked_eq H1 in Hm.
  injection Hm as ->. unfold ranked in H2. simpl in H2.
  repeat (apply elem_of_cons in H2 as [H2|H2]; [discriminate|]).
  by apply elem_of_nil in H2.
Qed.

(** [session_gates_pages] at concrete inputs. *)
Lemma session_gates_pages_witness :
  navigate 2 initial "/users" []
  = Some {| location := "/login";
            trace := [NavigateTo "/login"; LoadChunk Login; Mount Login];
            chunks := [Login] |}
  ∧ MountLayout ∉ [NavigateTo "/login"; LoadChunk Login; Mount Login].
Proof.
  assert (H : navigate 2 initial "/users" []
              = Some {| location := "/login";
                        trace := [NavigateTo "/login"; LoadChunk Login; Mount Login];
                        chunks := [Login] |}) by (vm_compute; reflexivity).
  split; [exact H|].
  destruct (session_gates_pages initial "/users" [] 0 _ H) as (Hun & _).
  apply Hun. reflexivity.
Defined.

(** [NotFound_iff_undeclared] at concrete inputs. *)
Lemma NotFound_iff_undeclared_witness :
  is_pathname "/dashboard/extra" = true
  ∧ (matchRoutes routes "/dashboard/extra" = Some [Lazy NotFound]
     ↔ declared "/dashboard/extra" = false).
Proof.
  assert (H : is_pathname "/dashboard/extra" = true) by (vm_compute; reflexivity).
  split; [exact H|]. exact (NotFound_iff_undeclared "/dashboard/extra" H).
Defined.

End Navigation.

(* ===================================================================== *)
(** * Properties of the retry policy, the boundary, the hook, the mock
      handlers and the dashboard *)
(* ===================================================================== *)

Section RetryPolicy.
Import JS App.
#[local] Open Scope Z_scope.

(** X19. A query that failed with a status from 400 to 499 is never
    retried, however few failures there were. *)
Theorem client_errors_are_not_retried (failureCount : Z) (error : jsval) (n : Z) :
  response_status error = JNum n 0 → 400 ≤ n < 500 →
  retry failureCount error = Some false.
Proof.
  intros Hs Hn. unfold retry. rewrite Hs. simpl. unfold decimal_ge. simpl.
  rewrite Z.mul_1_r.
  destruct (400 <=? n) eqn:E1; [|lia]. simpl.
  destruct (500 <=? n) eqn:E2; [lia|]. done.
Qed.

(** [client_errors_are_not_retried] at concrete inputs. *)
Lemma client_errors_are_not_retried_witness :
  retry 0 (JObj {[ "response" := JObj {[ "status" := JNum 404 0 ]} ]})
  = Some false.
Proof.
  apply (client_errors_are_not_retried 0 _ 404); [reflexivity|lia].
Defined.

(** X20. Every other failure (no error object, no response, no status, or
    a status below 400 or from 500 on) is retried exactly while fewer
    than three attempts have failed. *)
Theorem other_failures_are_retried_thrice (failureCount : Z) (error : jsval) :
  (response_status error = JUndefined
   ∨ ∃ n, response_status error = JNum n 0 ∧ (n < 400 ∨ 500 ≤ n)) →
  retry failureCount error = Some (failureCount <? 3).
Proof.
  intros [Hs|(n & Hs & Hn)]; unfold retry; rewrite Hs; simpl; [done|].
  unfold decimal_ge. simpl. rewrite Z.mul_1_r.
  destruct (400 <=? n) eqn:E1; [|done]. simpl.
  destruct (500 <=? n) eqn:E2; [done|lia].
Qed.

(** [other_failures_are_retried_thrice] at concrete inputs. *)
Lemma other_failures_are_retried_thrice_witness :
  retry 2 JNull = Some true
  ∧ retry 3 (JObj {[ "response" := JObj {[ "status" := JNum 503 0 ]} ]})
    = Some false.
Proof.
  split.
  - apply (other_failures_are_retried_thrice 2 JNull). by left.
  - apply (other_failures_are_retried_thrice 3). right. exists 503.
    split; [reflexivity|lia].
Defined.

(** X21. After three failed attempts nothing is retried, whatever the
    error. *)
Theorem no_fourth_retry (failureCount : Z) (error : jsval) (b : bool) :
  3 ≤ failureCount → retry failureCount error = Some b → b = false.
Proof.
  intros Hf. unfold retry.
  assert ((failureCount <? 3) = false) as -> by lia.
  destruct (js_ge _ _) as [[]|]; [|congruence|done].
  destruct (js_lt _ _) as [[]|]; congruence.
Qed.

(** [no_fourth_retry] at concrete inputs. *)
Lemma no_fourth_retry_witness :
  retry 3 (JObj {[ "message" := JStr "Network Error" ]}) = Some false.
Proof.
  assert (H : ∃ b, retry 3 (JObj {[ "message" := JStr "Network Error" ]}) = Some b)
    by (by eexists).
  destruct H as [b Hb]. rewrite Hb. f_equal.
  apply (no_fourth_retry 3 (JObj {[ "message" := JStr "Network Error" ]}) b);
    [lia|exact Hb].
Defined.

End RetryPolicy.

Section BoundaryLifecycle.
Import ErrorBoundary Sessions.
#[local] Open Scope list_scope.

Lemma boundary_step_keeps (s : State) (ev : boundary_event) :
  (hasError s = true ↔ is_Some (error s)) →
  hasError (boundary_step s ev) = true ↔ is_Some (error (boundary_step s ev)).
Proof.
  intros Hs. destruct ev; simpl; [|split; [done|by intros [? ?]]|done].
  split; [by eexists|done].
Qed.

(** X22. Whatever is thrown and clicked, the boundary holds an error
    exactly when its flag is set; and as long as the last thing that
    happened is a click on the retry button, it renders its children. *)
Theorem boundary_flag_tracks_error (evs : list boundary_event) (dev : bool)
    (props : Props) :
  (hasError (boundary_run evs) = true ↔ is_Some (error (boundary_run evs)))
  ∧ render dev props (boundary_run (evs ++ [ClickTryAgain]))
    = Node (children props).
Proof.
  split.
  - unfold boundary_run.
    assert (H : ∀ s, (hasError s = true ↔ is_Some (error s)) →
                hasError (foldl boundary_step s evs) = true
                ↔ is_Some (error (foldl boundary_step s evs))).
    { induction evs as [|ev evs' IH]; intros s Hs; [done|]. simpl.
      apply IH. by apply boundary_step_keeps. }
    apply H. simpl. split; [done|by intros [? ?]].
  - unfold boundary_run. by rewrite foldl_app.
Qed.

(** X23. The details of a captured error are shown in development only:
    a production build renders the children, the fallback, or the
    failure screen without the box of the details; a development build
    shows the message of the captured error on the failure screen. *)
Theorem error_details_in_development_only (props : Props) (s : State) :
  (render false props s = Node (children props)
   ∨ render false props s = Node (fallback props)
   ∨ ∃ heading text buttons,
       render false props s = FailureScreen heading text None buttons)
  ∧ (∀ e, hasError s = true → truthy (fallback props) = false →
          error s = Some e →
          ∃ heading text st buttons,
            render true props s
            = FailureScreen heading text
                (Some {| details_message := message e; details_stack := st |})
                buttons).
Proof.
  split.
  - unfold render. destruct (hasError s); [|by left].
    destruct (truthy (fallback props)); [by right; left|].
    right; right. destruct (error s); by do 3 eexists.
  - intros e He Hf Hs. unfold render. rewrite He Hf Hs. by do 4 eexists.
Qed.

End BoundaryLifecycle.

Section AsyncOperation.
Import JS useAsyncOperation.
#[local] Open Scope list_scope.

(** X24. The state after an operation has settled depends on that
    settlement alone: it is not loading, holds the result and no error
    if the operation resolved, and the error and no data if it was
    rejected. With overlapping calls the one that settles last decides,
    also while another call is still pending. *)
Theorem last_settlement_decides (us : list update) (o : settled) (s : state) :
  updates (us ++ [Settled o]) s = execute o initial
  ∧ loading (updates (us ++ [Settled o]) s) = false
  ∧ updates (us ++ [Settled o]) s
    = match o with
      | Resolved d => {| data := d; error := JNull; loading := false |}
      | Rejected e => {| data := JNull; error := e; loading := false |}
      end.
Proof.
  unfold updates, execute. rewrite foldl_app. simpl.
  by destruct o.
Qed.

End AsyncOperation.

Section MockHandlers.
Import JS handlers.

(** X25. The mock of the creation answers 201 and echoes every property
    of the body; the id is ["3"] only when the body brings none, since
    the body is spread after it. *)
Theorem post_users_echoes_body (newUser : jsval) :
  status (post_users newUser) = 201%Z
  ∧ (∀ k v, spread newUser !! k = Some v → prop (json (post_users newUser)) k = v)
  ∧ (spread newUser !! "id" = None →
       prop (json (post_users newUser)) "id" = JStr "3")
  ∧ (∀ k, k ≠ "id" → spread newUser !! k = None →
          prop (json (post_users newUser)) k = JUndefined).
Proof.
  unfold post_users, prop, json, get, spread2. split; [done|].
  split; [|split].
  - intros k v H. by rewrite (lookup_union_Some_l _ _ _ _ H).
  - intros H. by rewrite lookup_union_r // lookup_singleton_eq.
  - intros k Hk H. by rewrite lookup_union_r // lookup_singleton_ne.
Qed.

(** [post_users_echoes_body] at concrete inputs. *)
Lemma post_users_echoes_body_witness :
  prop (json (post_users (JObj {[ "name" := JStr "Ann" ]}))) "id" = JStr "3"
  ∧ prop (json (post_users (JObj {[ "id" := JStr "7" ]}))) "id" = JStr "7".
Proof.
  destruct (post_users_echoes_body (JObj {[ "name" := JStr "Ann" ]}))
    as (_ & _ & Hdefault & _).
  destruct (post_users_echoes_body (JObj {[ "id" := JStr "7" ]}))
    as (_ & Hecho & _).
  split; [apply Hdefault; reflexivity|]. apply Hecho. reflexivity.
Defined.

End MockHandlers.

Section DashboardPage.
Import JS Dashboard.
#[local] Open Scope list_scope.

Lemma map_rows_Some (users : list jsval) :
  Forall (fun u => present u = true) users →
  map_rows users
  = Some (map (fun u => {| key := prop u "id"; fullName := prop u "fullName";
                           email := prop u "email" |}) users).
Proof.
  induction 1 as [|u users Hu _ IH]; [done|]. simpl.
  unfold render_row. by rewrite Hu IH.
Qed.

Lemma map_rows_None (users : list jsval) :
  map_rows users = None ↔ ∃ u, u ∈ users ∧ present u = false.
Proof.
  induction users as [|u users IH]; simpl.
  - split; [done|]. intros (u & Hu & _). by apply elem_of_nil in Hu.
  - unfold render_row. destruct (present u) eqn:Hu.
    + destruct (map_rows users) as [rs|].
      * split; [done|]. intros (u' & [->|Hin]%elem_of_cons & Hp); [congruence|].
        destruct IH as [_ IH]. by discriminate IH; eauto.
      * split; [|done]. intros _. destruct IH as [IH _].
        destruct IH as (u' & Hin & Hp); [done|]. exists u'. split; [by right|done].
    + split; [|done]. intros _. exists u. split; [left|done].
Qed.

(** X26. The page throws exactly when there is no error, the query is not
    loading, data are there, and [users] is no array or holds [null] or
    [undefined]. In particular it renders on an error, while loading and
    without data. *)
Theorem Dashboard_throws_iff (usersData isLoading error : jsval) :
  Dashboard usersData isLoading error = Threw
  ↔ truthy error = false ∧ truthy isLoading = false
    ∧ present usersData = true
    ∧ ∀ users, prop usersData "users" = JArr users →
               ∃ u, u ∈ users ∧ present u = false.
Proof.
  unfold Dashboard, recent_users.
  destruct (truthy error); [by split; [|intros []]|].
  destruct (truthy isLoading); [by split; [|intros (_ & ? & _)]|].
  destruct (present usersData); [|by split; [|intros (_ & _ & ? & _)]].
  destruct (prop usersData "users") as [| | | | |users|] eqn:E;
    try (split; [intros _; repeat split; intros ? [=]|done]).
  destruct (map_rows users) as [rs|] eqn:Er.
  - split; [done|]. intros (_ & _ & _ & H). exfalso.
    assert (map_rows users = None) by (apply map_rows_None; eauto).
    congruence.
  - split; [|done]. intros _. repeat split. intros users' [= <-].
    by apply map_rows_None.
Qed.

(** X27. With an array of users, none of them [null] or [undefined], the
    page shows one row per user, in the order of the array, each with the
    id as its key and the full name and the e-mail of that user; the
    total is the one of the data, and [0] when that is missing or zero. *)
Theorem Dashboard_lists_users (usersData isLoading error : jsval)
    (users : list jsval) :
  truthy error = false → truthy isLoading = false →
  prop usersData "users" = JArr users →
  Forall (fun u => present u = true) users →
  Dashboard usersData isLoading error
  = Page (if truthy (prop usersData "total") then prop usersData "total"
          else JNum 0 0)
         (Rows (map (fun u => {| key := prop u "id";
                                 fullName := prop u "fullName";
                                 email := prop u "email" |}) users)).
Proof.
  intros He Hl Hu Hall. unfold Dashboard, recent_users.
  rewrite He Hl Hu (map_rows_Some _ Hall).
  assert (present usersData = true) as ->; [|done].
  destruct usersData; try done; discriminate.
Qed.

(** [Dashboard_throws_iff] at concrete inputs. *)
Lemma Dashboard_throws_iff_witness :
  Dashboard JUndefined (JBool false) JNull = Page (JNum 0 0) Nothing
  ∧ Dashboard (JObj {[ "total" := JNum 2 0 ]}) (JBool false) JNull = Threw.
Proof.
  split; [reflexivity|].
  apply (Dashboard_throws_iff (JObj {[ "total" := JNum 2 0 ]}) (JBool false) JNull).
  repeat split. intros users H. discriminate H.
Defined.

(** [Dashboard_lists_users] at concrete inputs. *)
Lemma Dashboard_lists_users_witness :
  Dashboard (JObj {[ "total" := JNum 1 0;
                     "users" := JArr [JObj {[ "id" := JStr "1";
                                              "fullName" := JStr "John Doe";
                                              "email" := JStr "john@example.com" ]}] ]})
            (JBool false) JNull
  = Page (JNum 1 0)
         (Rows [ {| key := JStr "1"; fullName := JStr "John Doe";
                    email := JStr "john@example.com" |} ]).
Proof.
  rewrite (Dashboard_lists_users _ (JBool false) JNull
             [JObj {[ "id" := JStr "1"; "fullName" := JStr "John Doe";
                      "email" := JStr "john@example.com" ]}]);
    try reflexivity.
  repeat constructor.
Defined.

End DashboardPage.

Section SessionStoreExamples.
Import JS authSlice Samples.
#[local] Open Scope list_scope.

(** [invariant_without_restart] at concrete inputs. *)
Lemma invariant_without_restart_witness :
  session_invariant
    (run ∅ [Login john "tok"; UpdateUser {[ "name" := JStr "Johnny" ]};
            Logout; UpdateUser {[ "name" := JStr "J" ]}; Login john "tok2"]).
Proof.
  apply (invariant_without_restart ∅); reflexivity.
Defined.

(** [restart_after_login] at concrete inputs. *)
Lemma restart_after_login_witness :
  user (restart (login john "tok" fresh)) = JObj john
  ∧ token (restart (login john "tok" fresh)) = JStr "tok"
  ∧ isAuthenticated (restart (login john "tok" fresh)) = JBool false.
Proof.
  apply (restart_after_login john "tok" fresh). vm_compute. reflexivity.
Defined.

End SessionStoreExamples.
